(** * OpenStreetMap cleaning and reshaping: a shallow embedding

    The development embeds the value cleaner of [clean_osm.py] (class
    [cleanOSM]) and the record reshaper of [convertToCSV.py]
    ([ConvertToCSV.shape_element]) and states the properties of the
    natural-language specification over them.

    Python [str] values are byte strings and are modelled by [string]; the
    case conversions are the ASCII ones of Python 2's [str] type.  The regular
    expressions of the source are kept as syntax trees and run by a
    backtracking matcher that follows the priorities of the [re] module
    (leftmost match, alternatives in order, greedy repetition).  Operations
    that can raise in Python return a [result]. *)

From Stdlib Require Import String Ascii List Bool Arith ZArith Lia Permutation.
Import ListNotations.
Open Scope string_scope.
Open Scope list_scope.
Open Scope nat_scope.

(* ===================================================================== *)
(** * Python primitives *)
(* ===================================================================== *)

Module Py.

(** Exceptions the embedded code can raise. *)
Inductive exn : Type :=
| KeyError
| TypeError
| ValueError
| IndexError
| ReError.

(** A computation that returns a value or raises. *)
Inductive result (A : Type) : Type :=
| Ok (a : A)
| Raise (e : exn).
Arguments Ok {A} a.
Arguments Raise {A} e.

Definition bind {A B : Type} (x : result A) (f : A -> result B) : result B :=
  match x with
  | Ok a => f a
  | Raise e => Raise e
  end.

Definition returns {A : Type} (x : result A) : bool :=
  match x with
  | Ok _ => true
  | Raise _ => false
  end.

(** ** Characters *)

Definition chr (n : nat) : ascii := ascii_of_nat n.

Definition between (lo hi : nat) (c : ascii) : bool :=
  let n := nat_of_ascii c in (lo <=? n) && (n <=? hi).

Definition is_digit (c : ascii) : bool := between 48 57 c.
Definition is_upper (c : ascii) : bool := between 65 90 c.
Definition is_lower (c : ascii) : bool := between 97 122 c.
Definition is_alpha (c : ascii) : bool := is_upper c || is_lower c.

(** [\w] without the LOCALE and UNICODE flags: [[a-zA-Z0-9_]]. *)
Definition is_word (c : ascii) : bool :=
  is_alpha c || is_digit c || Ascii.eqb c "_".

(** [str.isspace] and [\s]: space, tab, newline, return, vertical tab,
    form feed. *)
Definition is_space (c : ascii) : bool :=
  Ascii.eqb c " " || between 9 13 c.

Definition upper_char (c : ascii) : ascii :=
  if is_lower c then chr (nat_of_ascii c - 32) else c.

Definition lower_char (c : ascii) : ascii :=
  if is_upper c then chr (nat_of_ascii c + 32) else c.

(** ** Strings *)

Fixpoint map_str (f : ascii -> ascii) (s : string) : string :=
  match s with
  | EmptyString => EmptyString
  | String c s' => String (f c) (map_str f s')
  end.

(** [s.upper()] and [s.lower()]. *)
Definition upper (s : string) : string := map_str upper_char s.
Definition lower (s : string) : string := map_str lower_char s.

(** [s.capitalize()]: first character upper case, the rest lower case. *)
Definition capitalize (s : string) : string :=
  match s with
  | EmptyString => EmptyString
  | String c s' => String (upper_char c) (lower s')
  end.

(** [sub in s] for strings. *)
Fixpoint contains (sub s : string) : bool :=
  if String.prefix sub s then true
  else match s with
       | EmptyString => false
       | String _ s' => contains sub s'
       end.

(** [c in s] for a one-character [c]. *)
Fixpoint has_char (c : ascii) (s : string) : bool :=
  match s with
  | EmptyString => false
  | String a s' => Ascii.eqb a c || has_char c s'
  end.

Fixpoint drop_while (p : ascii -> bool) (s : string) : string :=
  match s with
  | EmptyString => EmptyString
  | String c s' => if p c then drop_while p s' else s
  end.

Fixpoint rev_str (acc s : string) : string :=
  match s with
  | EmptyString => acc
  | String c s' => rev_str (String c acc) s'
  end.

(** [s.strip()]: whitespace removed at both ends. *)
Definition strip (s : string) : string :=
  rev_str "" (drop_while is_space (rev_str "" (drop_while is_space s))).

(** [s.split()] with no separator: the maximal runs of non-whitespace
    characters.  [cur] is the word being read, reversed. *)
Fixpoint split_ws_aux (cur : string) (s : string) : list string :=
  match s with
  | EmptyString =>
      match cur with
      | EmptyString => []
      | _ => [rev_str "" cur]
      end
  | String c s' =>
      if is_space c then
        match cur with
        | EmptyString => split_ws_aux "" s'
        | _ => rev_str "" cur :: split_ws_aux "" s'
        end
      else split_ws_aux (String c cur) s'
  end.

Definition split_ws (s : string) : list string := split_ws_aux "" s.

(** [s.split(c)] for a one-character separator: always at least one part. *)
Fixpoint split_char (c : ascii) (s : string) : list string :=
  match s with
  | EmptyString => [EmptyString]
  | String a s' =>
      if Ascii.eqb a c then EmptyString :: split_char c s'
      else match split_char c s' with
           | part :: parts => String a part :: parts
           | [] => [String a EmptyString]
           end
  end.

(** [s.split(c, 1)]: cut at the first [c] only. *)
Fixpoint split_first (c : ascii) (s : string) : list string :=
  match s with
  | EmptyString => [EmptyString]
  | String a s' =>
      if Ascii.eqb a c then [EmptyString; s']
      else match split_first c s' with
           | part :: parts => String a part :: parts
           | [] => [String a EmptyString]
           end
  end.

(** [sep.join(parts)]. *)
Fixpoint join (sep : string) (parts : list string) : string :=
  match parts with
  | [] => ""
  | [p] => p
  | p :: rest => (p ++ sep ++ join sep rest)%string
  end.

(** [string.capwords(s)]: split on whitespace, capitalize every word, join
    with single spaces. *)
Definition capwords (s : string) : string :=
  join " " (map capitalize (split_ws s)).

(** [x in l] for a list of strings. *)
Definition str_in (x : string) (l : list string) : bool :=
  existsb (String.eqb x) l.

(** ** Dictionaries

    A [dict] with string keys, in its iteration order. *)
Definition dict : Type := list (string * string).

Definition keys (d : dict) : list string := map fst d.

Fixpoint lookup (d : dict) (k : string) : option string :=
  match d with
  | [] => None
  | (k', v) :: d' => if String.eqb k k' then Some v else lookup d' k
  end.

(** [d[k]]: raises [KeyError] for a missing key. *)
Definition getitem (d : dict) (k : string) : result string :=
  match lookup d k with
  | Some v => Ok v
  | None => Raise KeyError
  end.

(** [l[i]] on a tuple or list. *)
Definition index {A : Type} (l : list A) (i : nat) : result A :=
  match nth_error l i with
  | Some a => Ok a
  | None => Raise IndexError
  end.

(** A match group used as a string: [None] has no [upper] and cannot be
    concatenated. *)
Definition as_str (g : option string) : result string :=
  match g with
  | Some s => Ok s
  | None => Raise TypeError
  end.

End Py.

Import Py.

Notation "x <- e ;; k" := (Py.bind e (fun x => k))
  (at level 61, e at next level, right associativity).

(* ===================================================================== *)
(** * Regular expressions *)
(* ===================================================================== *)

Module Re.

(** An item of a bracketed character set. *)
Inductive citem : Type :=
| One (c : ascii)           (* a literal character *)
| Range (lo hi : ascii)     (* [lo-hi] *)
| Digit                     (* [\d] *)
| Space.                    (* [\s] *)

(** The patterns the source uses.  Groups carry their number as [re]
    assigns it, by opening parenthesis from the left, starting at 1. *)
Inductive regex : Type :=
| Empty
| Lit (c : ascii)
| Any                                         (* [.]: any character but a newline *)
| Class (items : list citem)                  (* [[...]], [\d], [\s] *)
| Seq (r1 r2 : regex)
| Alt (r1 r2 : regex)
| Rep (r : regex) (lo : nat) (hi : option nat)  (* greedy [{lo,hi}], [?], [+] *)
| Group (n : nat) (r : regex)
| Bol                                         (* [^] *)
| Eol                                         (* [$] *)
| WordB                                       (* [\b] *)
| NotBehind (w : nat) (r : regex)             (* [(?<!r)], [r] of width [w] *)
| NotAhead (r : regex).                       (* [(?!r)] *)

Definition citem_mem (c : ascii) (i : citem) : bool :=
  match i with
  | One a => Ascii.eqb c a
  | Range lo hi => between (nat_of_ascii lo) (nat_of_ascii hi) c
  | Digit => is_digit c
  | Space => is_space c
  end.

Definition class_mem (items : list citem) (c : ascii) : bool :=
  existsb (citem_mem c) items.

(** The characters of a string, one literal after the other. *)
Fixpoint lits (s : string) : regex :=
  match s with
  | EmptyString => Empty
  | String c EmptyString => Lit c
  | String c s' => Seq (Lit c) (lits s')
  end.

Fixpoint seqs (rs : list regex) : regex :=
  match rs with
  | [] => Empty
  | [r] => r
  | r :: rs' => Seq r (seqs rs')
  end.

Fixpoint alts (rs : list regex) : regex :=
  match rs with
  | [] => Empty
  | [r] => r
  | r :: rs' => Alt r (alts rs')
  end.

Definition digit : regex := Class [Digit].
Definition opt (r : regex) : regex := Rep r 0 (Some 1).
Definition plus (r : regex) : regex := Rep r 1 None.

(** The state of a match attempt: the text before the current position
    (nearest character first), the text after it, and the groups captured
    so far (latest first). *)
Record mstate : Type := MS {
  before : list ascii;
  after : string;
  caps : list (nat * string)
}.

Fixpoint cap_get (n : nat) (cs : list (nat * string)) : option string :=
  match cs with
  | [] => None
  | (i, s) :: cs' => if i =? n then Some s else cap_get n cs'
  end.

Fixpoint take (n : nat) (s : string) : string :=
  match n, s with
  | S n', String c s' => String c (take n' s')
  | _, _ => EmptyString
  end.

(** The text between two states of one attempt. *)
Definition consumed (st st' : mstate) : string :=
  take (String.length (after st) - String.length (after st')) (after st).

Definition advance (c : ascii) (rest : string) (st : mstate) : mstate :=
  MS (c :: before st) rest (caps st).

(** One character that satisfies [p]. *)
Definition one (p : ascii -> bool) (st : mstate)
    (k : mstate -> option mstate) : option mstate :=
  match after st with
  | String c rest => if p c then k (advance c rest st) else None
  | EmptyString => None
  end.

Definition at_word_boundary (st : mstate) : bool :=
  let prev := match before st with c :: _ => is_word c | [] => false end in
  let next := match after st with String c _ => is_word c | EmptyString => false end in
  xorb prev next.

(** [$] without MULTILINE: the end of the string, or just before a final
    newline. *)
Definition at_eol (st : mstate) : bool :=
  match after st with
  | EmptyString => true
  | String c EmptyString => Ascii.eqb c (chr 10)
  | _ => false
  end.

(** The state [w] characters back, if there are that many. *)
Fixpoint step_back (w : nat) (bef : list ascii) (aft : string)
    : option (list ascii * string) :=
  match w with
  | 0 => Some (bef, aft)
  | S w' =>
      match bef with
      | [] => None
      | c :: bef' => step_back w' bef' (String c aft)
      end
  end.

(** A greedy repetition of [body]: up to [n] more iterations, [lo] of them
    required, then [k].  One more iteration is tried before stopping. *)
Fixpoint rep_loop (body : mstate -> (mstate -> option mstate) -> option mstate)
    (k : mstate -> option mstate) (n lo : nat) (st : mstate)
    {struct n} : option mstate :=
  match n with
  | 0 => match lo with 0 => k st | S _ => None end
  | S n' =>
      match body st (fun st1 => rep_loop body k n' (pred lo) st1) with
      | Some res => Some res
      | None => match lo with 0 => k st | S _ => None end
      end
  end.

(** The backtracking matcher, in continuation-passing style: [exec r st k]
    is the first success, in the engine's order of preference, of [r] from
    [st] followed by [k].  An unbounded repetition is bounded by the length
    of the remaining text, which every iteration of the source's patterns
    shortens. *)
Fixpoint exec (r : regex) (st : mstate) (k : mstate -> option mstate)
    {struct r} : option mstate :=
  match r with
  | Empty => k st
  | Lit c => one (Ascii.eqb c) st k
  | Any => one (fun a => negb (Ascii.eqb a (chr 10))) st k
  | Class items => one (class_mem items) st k
  | Seq r1 r2 => exec r1 st (fun st1 => exec r2 st1 k)
  | Alt r1 r2 =>
      match exec r1 st k with
      | Some res => Some res
      | None => exec r2 st k
      end
  | Rep r1 lo hi =>
      rep_loop (exec r1) k
        (match hi with Some h => h | None => String.length (after st) end)
        lo st
  | Group n r1 =>
      exec r1 st (fun st1 =>
        k (MS (before st1) (after st1) ((n, consumed st st1) :: caps st1)))
  | Bol => match before st with [] => k st | _ :: _ => None end
  | Eol => if at_eol st then k st else None
  | WordB => if at_word_boundary st then k st else None
  | NotBehind w r1 =>
      match step_back w (before st) (after st) with
      | None => k st
      | Some (bef, aft) =>
          match exec r1 (MS bef aft (caps st)) Some with
          | Some _ => None
          | None => k st
          end
      end
  | NotAhead r1 =>
      match exec r1 st Some with
      | Some _ => None
      | None => k st
      end
  end.

(** The number of groups of a pattern. *)
Fixpoint ngroups (r : regex) : nat :=
  match r with
  | Seq r1 r2 | Alt r1 r2 => ngroups r1 + ngroups r2
  | Rep r1 _ _ | NotBehind _ r1 | NotAhead r1 => ngroups r1
  | Group _ r1 => S (ngroups r1)
  | _ => 0
  end.

(** A match object: where the match starts and ends, and [m.groups()]. *)
Record match_obj : Type := Match {
  m_start : nat;
  m_len : nat;
  groups : list (option string)
}.

Definition match_at (r : regex) (pre : list ascii) (s : string)
    : option match_obj :=
  match exec r (MS pre s []) Some with
  | Some st =>
      Some (Match (List.length pre)
                  (String.length s - String.length (after st))
                  (map (fun i => cap_get i (caps st)) (seq 1 (ngroups r))))
  | None => None
  end.

(** [re.search]: the match at the leftmost position that has one. *)
Fixpoint search_from (r : regex) (pre : list ascii) (s : string)
    : option match_obj :=
  match match_at r pre s with
  | Some m => Some m
  | None =>
      match s with
      | EmptyString => None
      | String c s' => search_from r (c :: pre) s'
      end
  end.

Definition search (r : regex) (s : string) : option match_obj :=
  search_from r [] s.

Definition found (r : regex) (s : string) : bool :=
  match search r s with
  | Some _ => true
  | None => false
  end.

(** [re.sub] with a function as replacement, one position at a time.
    [skip] counts the characters still inside the last match; [adj] says
    that the last match ended at this very position, where Python 2 ignores
    an empty match.  After an empty match the search moves on by one
    character, which is copied. *)
Fixpoint sub_loop (r : regex) (repl : match_obj -> result string)
    (pre : list ascii) (s : string) (skip : nat) (adj : bool)
    {struct s} : result string :=
  let copy :=
    match s with
    | EmptyString => Ok ""
    | String c s' =>
        rest <- sub_loop r repl (c :: pre) s' 0 false ;;
        Ok (String c rest)
    end in
  match skip with
  | S k =>
      match s with
      | EmptyString => Ok ""
      | String c s' => sub_loop r repl (c :: pre) s' k (k =? 0)
      end
  | 0 =>
      match match_at r pre s with
      | None => copy
      | Some m =>
          match m_len m with
          | 0 =>
              if adj then copy
              else (out <- repl m ;; rest <- copy ;; Ok (out ++ rest)%string)
          | S l =>
              out <- repl m ;;
              rest <- match s with
                      | EmptyString => Ok ""
                      | String c s' => sub_loop r repl (c :: pre) s' l (l =? 0)
                      end ;;
              Ok (out ++ rest)%string
          end
      end
  end.

Definition sub (r : regex) (repl : match_obj -> result string) (s : string)
    : result string :=
  sub_loop r repl [] s 0 false.

(** The [i]-th element of [m.groups()], used as a string. *)
Definition group_str (m : match_obj) (i : nat) : result string :=
  g <- index (groups m) i ;; as_str g.

(** The pattern text of a mapping key, spliced into a larger pattern: the
    ordinary characters stand for themselves and [.] for any character.
    Keys with other special characters are not compiled here. *)
Definition is_special (c : ascii) : bool :=
  existsb (Ascii.eqb c)
    (list_ascii_of_string "\^$*+?{}[]()|").

Fixpoint parse_key (key : string) : result regex :=
  match key with
  | EmptyString => Ok Empty
  | String c key' =>
      if is_special c then Raise ReError
      else
        rest <- parse_key key' ;;
        let atom := if Ascii.eqb c "." then Any else Lit c in
        Ok (match key' with EmptyString => atom | _ => Seq atom rest end)
  end.

(** A replacement string of [re.sub]: without a backslash it is taken as it
    is; templates with escapes are not expanded here. *)
Definition template (repl : string) : result string :=
  if has_char "\" repl then Raise ReError else Ok repl.

End Re.

Import Re.

(* ===================================================================== *)
(** * clean_osm.py: class cleanOSM *)
(* ===================================================================== *)

Module CleanOSM.

(** An instance of the class: [cleanOSM(dirty_value, mapping, expected_values)]. *)
Record cleanOSM : Type := Init {
  dirty_value : string;
  mapping : dict;
  expected_values : list string
}.

(** [clean_value]. *)
Definition clean_value (self : cleanOSM) : result string :=
  if str_in (dirty_value self) (keys (mapping self))
  then getitem (mapping self) (dirty_value self)
  else Ok (dirty_value self).

(** [set_to_none]. *)
Definition set_to_none (self : cleanOSM) : string := "None".

(** [r"\b(" + key + r")\b(\.|\`)?"]. *)
Definition key_regex (key : string) : result regex :=
  k <- parse_key key ;;
  Ok (seqs [WordB; Group 1 k; WordB; opt (Group 2 (Alt (Lit ".") (Lit "`")))]).

(** The loop of [update_street_name] over the keys still to visit;
    [clean_value] is the local variable of that name.  Every substitution is
    made in [self.dirty_value]. *)
Fixpoint update_loop (self : cleanOSM) (ks : list string)
    (clean_value : string) : result string :=
  match ks with
  | [] => Ok clean_value
  | key :: ks' =>
      if contains key (dirty_value self) then
        rx <- key_regex key ;;
        if found rx (dirty_value self) then
          v <- getitem (mapping self) key ;;
          t <- template v ;;
          new <- sub rx (fun _ => Ok t) (dirty_value self) ;;
          update_loop self ks' new
        else update_loop self ks' clean_value
      else update_loop self ks' clean_value
  end.

Definition update_street_name (self : cleanOSM) : result string :=
  update_loop self (keys (mapping self)) (dirty_value self).

(** [replfunc]. *)
Definition replfunc (m : match_obj) : result string :=
  g0 <- group_str m 0 ;;
  g1 <- group_str m 1 ;;
  Ok (strip (g0 ++ upper g1)).

(** [(\d{1,2})\s?\-?([a-z|A-Z]{1,2})\b] *)
Definition letter_regex : regex :=
  seqs [Group 1 (Rep digit 1 (Some 2));
        opt (Class [Space]);
        opt (Lit "-");
        Group 2 (Rep (Class [Range "a" "z"; One "|"; Range "A" "Z"]) 1 (Some 2));
        WordB].

Definition street_letter_to_uppercase_and_removegap (name : string)
    : result string :=
  if found letter_regex name then sub letter_regex replfunc name
  else Ok name.

(** [switchfunc]. *)
Definition switchfunc (m : match_obj) (index_1 index_2 : nat) : result string :=
  g1 <- group_str m index_1 ;;
  g2 <- group_str m index_2 ;;
  Ok (g1 ++ upper g2)%string.

(** [\b([A-Z])(\d{1,2})\b] *)
Definition switch_regex : regex :=
  seqs [WordB;
        Group 1 (Class [Range "A" "Z"]);
        Group 2 (Rep digit 1 (Some 2));
        WordB].

Definition switch_digit_position (name : string) : result string :=
  if found switch_regex name
  then sub switch_regex (fun x => switchfunc x 1 0) name
  else Ok name.

(** [(?<!(Plot No\. ))([A-Z])[\-|\s](\d{1,2})\b] *)
Definition hypen_regex : regex :=
  seqs [NotBehind 9 (Group 1 (lits "Plot No. "));
        Group 2 (Class [Range "A" "Z"]);
        Class [One "-"; One "|"; Space];
        Group 3 (Rep digit 1 (Some 2));
        WordB].

Definition remove_hypen_space_and_switch (name : string) : result string :=
  if found hypen_regex name
  then sub hypen_regex (fun x => switchfunc x 2 1) name
  else Ok name.

(** [\(?(\d{1,2})(th|rd|st|TH|nd)\)?] *)
Definition brackets_regex : regex :=
  seqs [opt (Lit "(");
        Group 1 (Rep digit 1 (Some 2));
        Group 2 (alts [lits "th"; lits "rd"; lits "st"; lits "TH"; lits "nd"]);
        opt (Lit ")")].

Definition remove_brackets (name : string) : result string :=
  if found brackets_regex name
  then sub brackets_regex (fun x => group_str x 0) name
  else Ok name.

(** [(?<!(Street |France |Center |strict ))(\b\d{1,2}[A-Z]{1}\b)(?! Street| Sikka)] *)
Definition prefix_regex : regex :=
  seqs [NotBehind 7 (Group 1 (alts [lits "Street "; lits "France ";
                                    lits "Center "; lits "strict "]));
        Group 2 (seqs [WordB; Rep digit 1 (Some 2);
                       Rep (Class [Range "A" "Z"]) 1 (Some 1); WordB]);
        NotAhead (Alt (lits " Street") (lits " Sikka"))].

(** [^(\b\d{1,2}\b)$] *)
Definition prefix_regex_1 : regex :=
  seqs [Bol; Group 1 (seqs [WordB; Rep digit 1 (Some 2); WordB]); Eol].

Definition add_street_prefix (name : string) : result string :=
  if found prefix_regex name then
    sub prefix_regex
        (fun x => g <- group_str x 1 ;; Ok ("Street " ++ g)%string) name
  else if found prefix_regex_1 name then
    sub prefix_regex_1
        (fun x => g <- group_str x 0 ;; Ok ("Street " ++ g)%string) name
  else Ok name.

(** [switch_number]. *)
Definition switch_number (m : match_obj) : result string :=
  g2 <- group_str m 2 ;;
  g1 <- group_str m 1 ;;
  Ok (g2 ++ " " ++ g1)%string.

(** [(?<!(\d{2} ))(\b\d{1,2}[A-Z]{0,1})\s(Street)(?! \d{2})] *)
Definition number_regex : regex :=
  seqs [NotBehind 3 (Group 1 (seqs [Rep digit 2 (Some 2); Lit " "]));
        Group 2 (seqs [WordB; Rep digit 1 (Some 2);
                       Rep (Class [Range "A" "Z"]) 0 (Some 1)]);
        Class [Space];
        Group 3 (lits "Street");
        NotAhead (seqs [Lit " "; Rep digit 2 (Some 2)])].

Definition put_number_after_street (name : string) : result string :=
  if found number_regex name then sub number_regex switch_number name
  else Ok name.

(** [any(value in name for value in self.expected_values)]. *)
Definition any_expected_in (self : cleanOSM) (name : string) : bool :=
  existsb (fun value => contains value name) (expected_values self).

Definition remove_non_street_values (self : cleanOSM) (name : string) : string :=
  if any_expected_in self name then name else "None".

(** The outer loop of [extract_street] over [split_on]. *)
Fixpoint extract_loop (self : cleanOSM) (split_on : list ascii)
    (name : string) : string :=
  match split_on with
  | [] => name
  | char :: rest =>
      if has_char char name then
        match find (any_expected_in self) (split_char char name) with
        | Some name_part => name_part
        | None => extract_loop self rest name
        end
      else extract_loop self rest name
  end.

Definition extract_street (self : cleanOSM) (name : string) : string :=
  extract_loop self ["-"%char; ","%char] name.

(** [clean_street_name]: the steps in the order of the source. *)
Definition clean_street_name (self : cleanOSM) : result string :=
  clean_name <- update_street_name self ;;
  clean_name <- remove_brackets (capwords clean_name) ;;
  clean_name <- street_letter_to_uppercase_and_removegap clean_name ;;
  clean_name <- switch_digit_position clean_name ;;
  clean_name <- remove_hypen_space_and_switch clean_name ;;
  clean_name <- put_number_after_street clean_name ;;
  clean_name <- add_street_prefix clean_name ;;
  let clean_name := remove_non_street_values self clean_name in
  if negb (String.eqb clean_name "None")
  then Ok (extract_street self clean_name)
  else Ok clean_name.

(** [is_expected_city]: the first expected value found inside the
    capitalized words of the input. *)
Definition is_expected_city (self : cleanOSM) : bool * string :=
  match find (fun value => contains value (capwords (dirty_value self)))
             (expected_values self) with
  | Some value => (true, value)
  | None => (false, "")
  end.

(** [^[a-z|A-Z]+.] *)
Definition regex_english : regex :=
  seqs [Bol; plus (Class [Range "a" "z"; One "|"; Range "A" "Z"]); Any].

Definition wrong_entry : list string :=
  ["town"; "ME-12"; "AE"; "San Diego, CA"].

(** [clean_city_name]. *)
Definition clean_city_name (self : cleanOSM) : result string :=
  let city_status := is_expected_city self in
  if fst city_status then Ok (snd city_status)
  else if str_in (dirty_value self) (keys (mapping self)) then clean_value self
  else if found regex_english (dirty_value self) then
    if str_in (dirty_value self) wrong_entry then Ok (set_to_none self)
    else Ok (capwords (dirty_value self))
  else Ok (set_to_none self).

End CleanOSM.

Import CleanOSM.

(* ===================================================================== *)
(** * convertToCSV.py: class ConvertToCSV *)
(* ===================================================================== *)

Module ConvertToCSV.

(** [^([a-z]|_)+:([a-z]|_)+] *)
Definition LOWER_COLON : regex :=
  seqs [Bol;
        plus (Group 1 (Alt (Class [Range "a" "z"]) (Lit "_")));
        Lit ":";
        plus (Group 2 (Alt (Class [Range "a" "z"]) (Lit "_")))].

(** The bracketed set of [= + / & < > ; ' ? % # $ @ , .], the double quote,
    the space, tab, return and newline; the double quote, tab, return and
    newline are given by their codes. *)
Definition PROBLEMCHARS : regex :=
  Class [One "="; One "+"; One "/"; One "&"; One "<"; One ">"; One ";";
         One "'"; One (chr 34); One "?"; One "%"; One "#"; One "$"; One "@";
         One ","; One "."; One " "; One (chr 9); One (chr 13); One (chr 10)].

(** [((\:ar)|\b(ar))$$] *)
Definition ARABICKEY : regex :=
  seqs [Group 1 (Alt (Group 2 (lits ":ar")) (Seq WordB (Group 3 (lits "ar"))));
        Eol; Eol].

Definition mapping_street_name : dict :=
  [("St.", "Street"); ("St", "Street"); ("street", "Street");
   ("Rd.", "Road"); ("Rd", "Road"); ("road", "Road")].

Definition expected_street_name : list string :=
  ["Street"; "Avenue"; "Boulevard"; "Drive"; "Court"; "Place"; "Square";
   "Lane"; "Road"; "Trail"; "Parkway"; "Commons"; "Slipway"; "Way"; "Walk";
   "Highway"; "Roundabout"; "Exit"; "Link"; "Track"; "Corniche"].

Definition mapping_city : dict :=
  [("A Ain", "Al Ain");
   ("Al AIn", "Al Ain");
   ("sharja", "Sharjah");
   ("Duba", "Dubai");
   ("Mussafah M 45- Abu Dhabi", "Mussafah");
   ("Musaffah Industrial Area", "Mussafah");
   ("Duabi", "Dubai");
   ("Al Safa 1", "Dubai");
   ("Al Safa 2", "Dubai");
   ("Jumeirah 1", "Dubai");
   ("Jumeirah 3", "Dubai");
   ("Jumeirah Village Circle", "Dubai");
   ("Sjarjah", "Sharjah");
   ("samha", "Al Samha");
   ("JVT", "Dubai");
   ("Al Quoz Industrial Area 2", "Dubai");
   ("Jumeirah Lakes Towers", "Dubai");
   ("JLT Cluster Y", "Dubai");
   ("Karama", "Al Karama")].

Definition expected_cities : list string :=
  ["Abu Dhabi"; "Dubai"; "Dibba Al-Fujairah"; "Al Ain"; "Fujairah";
   "Sharjah"; "Al Karama"; "Al Nud"; "Mussafah"; "Ajman"; "Saadiyat Island";
   "Al Reem Island"; "Khalifa City A"; "Khalifa City B"; "Khalifa City C";
   "Al Towayya"; "Hatta"; "Al Khan"; "Al Maryah Island";
   "Muhammad Bin Zayed City"; "Al Karama"; "Al Samha"; "Umm Al Quwain";
   "Ras al Khaimah"; "Yas Island"; "Hatta"].

Definition mapping_surface : dict :=
  [("running surface", "running_surface");
   ("Elevated", "elevated");
   ("paving_stoness", "paving_stones");
   ("pavin", "paving");
   ("paving stones", "paving_stones");
   ("unpaveds", "unpaved");
   ("unpaved`", "unpaved");
   ("paving`", "paving");
   ("asphalt`", "asphalt")].

Definition mapping_building : dict :=
  [("Airport_terminal", "terminal");
   ("Office_And_entrance", "commercial");
   ("MAJ Building", "yes");
   ("Complex_A_&_B", "yes");
   ("yes;mosque", "mosque");
   ("Tourist_Exhibition", "yes");
   ("Gate 3", "yes");
   ("Offices", "commercial");
   ("office", "commercial")].

Definition NODE_FIELDS : list string :=
  ["id"; "lat"; "lon"; "user"; "uid"; "version"; "changeset"; "timestamp"].

Definition WAY_FIELDS : list string :=
  ["id"; "user"; "uid"; "version"; "changeset"; "timestamp"].

(** An [xml.etree] element: tag, attributes, children. *)
#[warnings="-register-all"]
Inductive Element : Type :=
| Elem (tag : string) (attrib : dict) (children : list Element).

Definition tag (e : Element) : string :=
  match e with Elem t _ _ => t end.

Definition attrib (e : Element) : dict :=
  match e with Elem _ a _ => a end.

(** [element.get(name)]: [None] for a missing attribute. *)
Definition get (e : Element) (name : string) : option string :=
  lookup (attrib e) name.

(** [element.iter()]: the element and its descendants in document order. *)
Fixpoint iter_all (e : Element) : list Element :=
  match e with
  | Elem _ _ children => e :: flat_map iter_all children
  end.

(** [element.iter(name)]. *)
Definition iter (e : Element) (name : string) : list Element :=
  filter (fun x => String.eqb (tag x) name) (iter_all e).

(** A row of the tag tables: the dictionary with the keys [id], [key],
    [value] and [type]. *)
Record tag_row : Type := TagRow {
  t_id : option string;
  t_key : string;
  t_value : string;
  t_type : string
}.

(** A row of the way-node table: [id], [node_id], [position]. *)
Record nd_row : Type := NdRow {
  nd_id : option string;
  node_id : string;
  position : nat
}.

(** The dictionary [shape_element] returns. *)
Inductive shaped : Type :=
| NodeShape (node : list (string * option string)) (node_tags : list tag_row)
| WayShape (way : list (string * option string)) (way_nodes : list nd_row)
           (way_tags : list tag_row).

(** [a, b = s.split(':', 1)]: the unpacking needs exactly two parts. *)
Definition unpack2 (parts : list string) : result (string * string) :=
  match parts with
  | [a; b] => Ok (a, b)
  | _ => Raise ValueError
  end.

(** The body of the tag loop in the [node] branch; [None] stands for
    [continue]. *)
Definition node_tag (element tg : Element) (problem_chars arabic_chars : regex)
    (default_tag_type : string) : result (option tag_row) :=
  k <- getitem (attrib tg) "k" ;;
  if found problem_chars k then Ok None
  else if found arabic_chars k then Ok None
  else
    let id := get element "id" in
    value <-
      (if String.eqb k "addr:street" then
         v <- getitem (attrib tg) "v" ;;
         clean_street_name (Init v mapping_street_name expected_street_name)
       else if String.eqb k "building" then
         v <- getitem (attrib tg) "v" ;;
         clean_value (Init v mapping_building [])
       else if String.eqb k "surface" then
         v <- getitem (attrib tg) "v" ;;
         clean_value (Init v mapping_surface [])
       else if String.eqb k "oneway" then
         v <- getitem (attrib tg) "v" ;;
         Ok (set_to_none (Init v [] []))
       else if String.eqb k "addr:city" then
         v <- getitem (attrib tg) "v" ;;
         clean_city_name (Init v mapping_city expected_cities)
       else getitem (attrib tg) "v") ;;
    if found LOWER_COLON k then
      tk <- unpack2 (split_first ":" k) ;;
      Ok (Some (TagRow id (snd tk) value (fst tk)))
    else Ok (Some (TagRow id k value default_tag_type)).

(** The body of the tag loop in the [way] branch.  The first test uses the
    module constant, not the argument [problem_chars]. *)
Definition way_tag (element tg : Element) (problem_chars arabic_chars : regex)
    (default_tag_type : string) : result (option tag_row) :=
  k <- getitem (attrib tg) "k" ;;
  if found PROBLEMCHARS k then Ok None
  else if found arabic_chars k then Ok None
  else
    let id := get element "id" in
    value <-
      (if String.eqb k "addr:street" then
         v <- getitem (attrib tg) "v" ;;
         clean_street_name (Init v mapping_street_name expected_street_name)
       else if String.eqb k "building" then
         v <- getitem (attrib tg) "v" ;;
         clean_value (Init v mapping_building [])
       else if String.eqb k "surface" then
         v <- getitem (attrib tg) "v" ;;
         clean_value (Init v mapping_surface [])
       else if String.eqb k "oneway" then
         v <- getitem (attrib tg) "v" ;;
         Ok (set_to_none (Init v [] []))
       else if String.eqb k "addr:city" then
         v <- getitem (attrib tg) "v" ;;
         clean_city_name (Init v mapping_city expected_cities)
       else getitem (attrib tg) "v") ;;
    if found LOWER_COLON k then
      tk <- unpack2 (split_first ":" k) ;;
      Ok (Some (TagRow id (snd tk) value (fst tk)))
    else Ok (Some (TagRow id k value default_tag_type)).

(** A tag loop: the rows of the tags that are not skipped, in order; the
    first exception ends it. *)
Fixpoint tag_loop (body : Element -> result (option tag_row))
    (tags : list Element) : result (list tag_row) :=
  match tags with
  | [] => Ok []
  | tg :: rest =>
      row <- body tg ;;
      rows <- tag_loop body rest ;;
      Ok (match row with Some r => r :: rows | None => rows end)
  end.

(** The loop over the [nd] children, with its counter [nd_index]. *)
Fixpoint nd_loop (element : Element) (nds : list Element) (nd_index : nat)
    : result (list nd_row) :=
  match nds with
  | [] => Ok []
  | nd :: rest =>
      ref <- getitem (attrib nd) "ref" ;;
      rows <- nd_loop element rest (S nd_index) ;;
      Ok (NdRow (get element "id") ref nd_index :: rows)
  end.

(** [shape_element]; [None] when the element is neither a node nor a way. *)
Definition shape_element (element : Element)
    (node_attr_fields way_attr_fields : list string)
    (problem_chars arabic_chars : regex) (default_tag_type : string)
    : result (option shaped) :=
  if String.eqb (tag element) "node" then
    let node_attribs := map (fun f => (f, get element f)) node_attr_fields in
    tags <- tag_loop (fun tg => node_tag element tg problem_chars arabic_chars
                                         default_tag_type)
                     (iter element "tag") ;;
    Ok (Some (NodeShape node_attribs tags))
  else if String.eqb (tag element) "way" then
    let way_attribs := map (fun f => (f, get element f)) way_attr_fields in
    way_nodes <- nd_loop element (iter element "nd") 0 ;;
    tags <- tag_loop (fun tg => way_tag element tg problem_chars arabic_chars
                                        default_tag_type)
                     (iter element "tag") ;;
    Ok (Some (WayShape way_attribs way_nodes tags))
  else Ok None.

(** [self.shape_element(element)], as [process_map] calls it: every other
    argument at its default. *)
Definition shape (element : Element) : result (option shaped) :=
  shape_element element NODE_FIELDS WAY_FIELDS PROBLEMCHARS ARABICKEY "regular".

(** The loop of [process_map] before the writers: every element of the
    stream with what [shape_element] makes of it. *)
Definition shape_stream (elements : list Element)
    : list (Element * result (option shaped)) :=
  map (fun element => (element, shape element)) elements.

End ConvertToCSV.

Import ConvertToCSV.

(* ===================================================================== *)
(** * Notions used by the statements *)
(* ===================================================================== *)

Module Spec.

(** A character of a lowercase-and-underscore segment. *)
Definition is_seg_char (c : ascii) : bool :=
  is_lower c || Ascii.eqb c "_".

(** The longest prefix of [s] whose characters satisfy [p], and the rest. *)
Fixpoint span (p : ascii -> bool) (s : string) : string * string :=
  match s with
  | EmptyString => (EmptyString, EmptyString)
  | String c s' =>
      if p c then let (a, b) := span p s' in (String c a, b)
      else (EmptyString, s)
  end.

(** The namespace split of a raw key: a non-empty lowercase-and-underscore
    segment, a colon, and a rest that starts with a lowercase-and-underscore
    character give the segment and the rest; any other key gives [None]. *)
Definition namespace_split (k : string) : option (string * string) :=
  match span is_seg_char k with
  | (String a seg, String sep (String c rest)) =>
      if Ascii.eqb sep ":" && is_seg_char c
      then Some (String a seg, String c rest)
      else None
  | _ => None
  end.

Fixpoint all_chars (p : ascii -> bool) (s : string) : bool :=
  match s with
  | EmptyString => true
  | String c s' => p c && all_chars p s'
  end.



(** The groups that every successful match of a pattern has set. *)
Fixpoint sure (r : regex) : list nat :=
  match r with
  | Seq r1 r2 => sure r1 ++ sure r2
  | Alt r1 r2 => filter (fun n => existsb (Nat.eqb n) (sure r2)) (sure r1)
  | Rep r1 lo _ => match lo with 0 => [] | S _ => sure r1 end
  | Group n r1 => n :: sure r1
  | _ => []
  end.

(** A mapping whose keys compile as patterns and whose values are plain
    replacement strings. *)
Definition wf_mapping (m : dict) : bool :=
  forallb (fun kv => returns (parse_key (fst kv)) && returns (template (snd kv))) m.

Definition has_attr (name : string) (e : Element) : bool :=
  match get e name with
  | Some _ => true
  | None => false
  end.

(** A record whose member references carry [ref] and whose sub-tags carry
    [k] and [v]. *)
Definition well_formed (e : Element) : bool :=
  forallb (has_attr "ref") (iter e "nd")
  && forallb (fun t => has_attr "k" t && has_attr "v" t) (iter e "tag").

(** ** Notions of the proofs about the matcher *)

(** Group [n] is set in a state. *)
Definition cap_set (n : nat) (st : mstate) : Prop :=
  cap_get n (caps st) <> None.

(** Every group set in [st] is set in [st']. *)
Definition extends (st st' : mstate) : Prop :=
  forall n, cap_set n st -> cap_set n st'.

(** What a successful run of a pattern hands to its continuation. *)
Definition hands_over (sure_groups : list nat)
    (run : mstate -> (mstate -> option mstate) -> option mstate) : Prop :=
  forall st k res,
    run st k = Some res ->
    exists st',
      k st' = Some res /\ extends st st'
      /\ forall n, In n sure_groups -> cap_set n st'.

(** A match attempt that has a result. *)
Definition succeeds (o : option mstate) : bool :=
  match o with
  | Some _ => true
  | None => false
  end.

(** [([a-z]|_)] as group [g]. *)
Definition seg_group (g : nat) : regex :=
  Group g (Alt (Class [Range "a" "z"]) (Lit "_")).

(** After the first segment: a colon and one segment character at least. *)
Definition after_segment (s : string) : bool :=
  match s with
  | String sep (String c _) => Ascii.eqb sep ":" && is_seg_char c
  | _ => false
  end.

End Spec.

Import Spec.

(* ===================================================================== *)
(** * audit_osm.py: class auditOSM *)
(* ===================================================================== *)

Module AuditOSM.

(** An instance of the class.  The file named by [osm_file] is read by
    [iterparse]; the functions below take what [iterparse] yields. *)
Record auditOSM : Type := AuditInit {
  osm_file : string;
  key : string;
  expected : list string
}.

(** [is_key_match]: raises [KeyError] when the element has no [k]. *)
Definition is_key_match (self : auditOSM) (elem : Element) : result bool :=
  k <- getitem (attrib elem) "k" ;;
  Ok (String.eqb k (key self)).

(** [s.add(x)] on a set of strings, kept as a list without repetition.
    Python fixes no order for the elements of a set. *)
Definition set_add (x : string) (s : list string) : list string :=
  if str_in x s then s else s ++ [x].

(** The loop over the [tag] descendants in [audit_key]. *)
Fixpoint audit_key_tags (self : auditOSM) (tags : list Element)
    (unique_values : list string) : result (list string) :=
  match tags with
  | [] => Ok unique_values
  | tg :: rest =>
      hit <- is_key_match self tg ;;
      if hit then
        v <- getitem (attrib tg) "v" ;;
        if negb (str_in v (expected self)) then
          v' <- getitem (attrib tg) "v" ;;
          audit_key_tags self rest (set_add v' unique_values)
        else audit_key_tags self rest unique_values
      else audit_key_tags self rest unique_values
  end.

(** The loop of [audit_key] over the elements that
    [iterparse(..., events=("start",))] yields, each as it is at its
    event. *)
Fixpoint audit_key_loop (self : auditOSM) (elems : list Element)
    (unique_values : list string) : result (list string) :=
  match elems with
  | [] => Ok unique_values
  | elem :: rest =>
      if String.eqb (tag elem) "node" || String.eqb (tag elem) "way" then
        unique_values' <- audit_key_tags self (iter elem "tag") unique_values ;;
        audit_key_loop self rest unique_values'
      else audit_key_loop self rest unique_values
  end.

(** [audit_key]: [list(unique_values)]. *)
Definition audit_key (self : auditOSM) (elems : list Element)
    : result (list string) :=
  audit_key_loop self elems [].

(** [\S]: every character but the six of [\s]. *)
Definition nonspace : list citem :=
  [Range (chr 0) (chr 8); Range (chr 14) (chr 31); Range (chr 33) (chr 255)].

(** [\b\S+\.?$]; the IGNORECASE flag changes nothing in a pattern without
    letters. *)
Definition street_type_re : regex :=
  seqs [WordB; plus (Class nonspace); opt (Lit "."); Eol].

(** [m.group()]: the text of the whole match. *)
Definition group (m : match_obj) (s : string) : string :=
  substring (m_start m) (m_len m) s.

(** A [defaultdict(set)] with string keys. *)
Definition set_dict : Type := list (string * list string).

(** [d[k].add(x)]: a missing key gets the empty set first. *)
Fixpoint dict_set_add (d : set_dict) (k x : string) : set_dict :=
  match d with
  | [] => [(k, set_add x [])]
  | (k', s) :: d' =>
      if String.eqb k k' then (k', set_add x s) :: d'
      else (k', s) :: dict_set_add d' k x
  end.

(** The set under a key, empty when the key is absent. *)
Fixpoint bucket (d : set_dict) (k : string) : list string :=
  match d with
  | [] => []
  | (k', s) :: d' => if String.eqb k k' then s else bucket d' k
  end.

(** [audit_street_type]: the dictionary after the call. *)
Definition audit_street_type (self : auditOSM) (street_types : set_dict)
    (street_name : string) : set_dict :=
  match search street_type_re street_name with
  | Some m =>
      let street_type := group m street_name in
      if negb (str_in street_type (expected self))
      then dict_set_add street_types street_type street_name
      else street_types
  | None => street_types
  end.

Fixpoint audit_street_tags (self : auditOSM) (tags : list Element)
    (street_types : set_dict) : result set_dict :=
  match tags with
  | [] => Ok street_types
  | tg :: rest =>
      hit <- is_key_match self tg ;;
      if hit then
        v <- getitem (attrib tg) "v" ;;
        audit_street_tags self rest (audit_street_type self street_types v)
      else audit_street_tags self rest street_types
  end.

Fixpoint audit_street_loop (self : auditOSM) (elems : list Element)
    (street_types : set_dict) : result set_dict :=
  match elems with
  | [] => Ok street_types
  | elem :: rest =>
      if String.eqb (tag elem) "node" || String.eqb (tag elem) "way" then
        street_types' <- audit_street_tags self (iter elem "tag") street_types ;;
        audit_street_loop self rest street_types'
      else audit_street_loop self rest street_types
  end.

(** [audit_street]. *)
Definition audit_street (self : auditOSM) (elems : list Element)
    : result set_dict :=
  audit_street_loop self elems [].

End AuditOSM.

(* ===================================================================== *)
(** * osm_file.py: class OSMFile *)
(* ===================================================================== *)

Module OSMFile.

(** What the sampling loop can raise. *)
Inductive error : Type :=
| ZeroDivisionError.

(** [get_element]: the first event of [iterparse] gives the root and is
    dropped; of the others, the elements of the [end] events whose tag is
    asked for are yielded.  An event carries its element as it is then. *)
Definition get_element (events : list (string * Element)) (tags : list string)
    : list Element :=
  match events with
  | [] => []
  | _ :: context =>
      map snd
          (filter (fun ev => String.eqb (fst ev) "end"
                             && str_in (tag (snd ev)) tags)
                  context)
  end.

Definition default_tags : list string := ["node"; "way"; "relation"].

(** The two lines written before the elements, and the closing line. *)
Definition xml_declaration : string :=
  "<?xml version=" ++ String (chr 34) "1.0" ++ String (chr 34) " encoding="
  ++ String (chr 34) "UTF-8" ++ String (chr 34) "?>" ++ String (chr 10) "".

Definition osm_open : string := "<osm>" ++ String (chr 10) " ".

Definition osm_close : string := "</osm>".

(** The loop of [create_sample_file] from index [i] on: what has been
    written, and the exception if one was raised.  [tostring] stands for
    [ET.tostring(element, encoding='utf-8')]. *)
Fixpoint sample_loop (tostring : Element -> string) (k : Z) (i : Z)
    (elements : list Element) (output : string) : string * option error :=
  match elements with
  | [] => (output, None)
  | element :: rest =>
      if (k =? 0)%Z then (output, Some ZeroDivisionError)
      else if (i mod k =? 0)%Z
           then sample_loop tostring k (i + 1)%Z rest (output ++ tostring element)
           else sample_loop tostring k (i + 1)%Z rest output
  end.

(** [create_sample_file]: the content of the sample file. *)
Definition create_sample_file (tostring : Element -> string) (sample_size : Z)
    (events : list (string * Element)) : string * option error :=
  let k := sample_size in
  let output := (xml_declaration ++ osm_open)%string in
  match sample_loop tostring k 0%Z (get_element events default_tags) output with
  | (output, None) => ((output ++ osm_close)%string, None)
  | (output, Some e) => (output, Some e)
  end.

End OSMFile.

(* ===================================================================== *)
(** * convertToCSV.py: process_map *)
(* ===================================================================== *)

Module ProcessMap.

(** How [process_map] can end before the stream does: an exception of
    [shape_element] or of a writer, or the exception of [validate_element]. *)
Inductive failure : Type :=
| Raised (e : exn)
| Invalid.

(** The rows written to the five files, after their header lines. *)
Record files : Type := Files {
  nodes_file : list (list (string * option string));
  node_tags_file : list tag_row;
  ways_file : list (list (string * option string));
  way_nodes_file : list nd_row;
  way_tags_file : list tag_row
}.

Definition no_rows : files := Files [] [] [] [] [].

(** The loop of [process_map].  [validator el] stands for
    [validator.validate(el, schema) is True]. *)
Fixpoint process_loop (validate : bool) (validator : shaped -> bool)
    (elements : list Element) (out : files) : files * option failure :=
  match elements with
  | [] => (out, None)
  | element :: rest =>
      match shape element with
      | Raise e => (out, Some (Raised e))
      | Ok None => process_loop validate validator rest out
      | Ok (Some el) =>
          if validate && negb (validator el) then (out, Some Invalid)
          else if String.eqb (tag element) "node" then
            match el with
            | NodeShape node node_tags =>
                process_loop validate validator rest
                  (Files (nodes_file out ++ [node])
                         (node_tags_file out ++ node_tags)
                         (ways_file out) (way_nodes_file out)
                         (way_tags_file out))
            | WayShape _ _ _ => (out, Some (Raised KeyError))
            end
          else if String.eqb (tag element) "way" then
            match el with
            | WayShape way way_nodes way_tags =>
                process_loop validate validator rest
                  (Files (nodes_file out) (node_tags_file out)
                         (ways_file out ++ [way])
                         (way_nodes_file out ++ way_nodes)
                         (way_tags_file out ++ way_tags))
            | NodeShape _ _ => (out, Some (Raised KeyError))
            end
          else process_loop validate validator rest out
      end
  end.

(** [process_map], from the events of [iterparse]. *)
Definition process_map (validate : bool) (validator : shaped -> bool)
    (events : list (string * Element)) : files * option failure :=
  process_loop validate validator
    (OSMFile.get_element events ["node"; "way"]) no_rows.

End ProcessMap.

(* ===================================================================== *)
(** * osm_project.py: count_tags *)
(* ===================================================================== *)

Module OsmProject.

(** A dictionary from tag names to counts. *)
Definition count_dict : Type := list (string * nat).

Fixpoint count_get (d : count_dict) (k : string) : option nat :=
  match d with
  | [] => None
  | (k', n) :: d' => if String.eqb k k' then Some n else count_get d' k
  end.

(** [tag_dict[k] += 1] for a key that is there. *)
Fixpoint count_incr (d : count_dict) (k : string) : count_dict :=
  match d with
  | [] => []
  | (k', n) :: d' =>
      if String.eqb k k' then (k', n + 1) :: d' else (k', n) :: count_incr d' k
  end.

(** The loop of [count_tags] over the elements [iterparse] yields. *)
Fixpoint count_loop (elems : list Element) (tag_dict : count_dict)
    : count_dict :=
  match elems with
  | [] => tag_dict
  | elem :: rest =>
      if negb (str_in (tag elem) (map fst tag_dict))
      then count_loop rest (tag_dict ++ [(tag elem, 1)])
      else count_loop rest (count_incr tag_dict (tag elem))
  end.

Definition count_tags (elems : list Element) : count_dict :=
  count_loop elems [].

End OsmProject.

(* ===================================================================== *)
(** * Further notions used by the statements *)
(* ===================================================================== *)

Module Notions.

(** Some character of the string satisfies [p]. *)
Fixpoint some_char (p : ascii -> bool) (s : string) : bool :=
  match s with
  | EmptyString => false
  | String c s' => p c || some_char p s'
  end.

Definition has_digit (s : string) : bool := some_char is_digit s.

(** A pattern every match of which takes a digit. *)
Fixpoint needs_digit (r : regex) : bool :=
  match r with
  | Class items =>
      forallb (fun i => match i with Digit => true | _ => false end) items
  | Seq r1 r2 => needs_digit r1 || needs_digit r2
  | Alt r1 r2 => needs_digit r1 && needs_digit r2
  | Rep r1 lo _ => match lo with 0 => false | S _ => needs_digit r1 end
  | Group _ r1 => needs_digit r1
  | _ => false
  end.

(** A successful run moves forward in the text, over a digit when [flag]
    says so. *)
Definition moves_on (flag : bool)
    (run : mstate -> (mstate -> option mstate) -> option mstate) : Prop :=
  forall st k res,
    run st k = Some res ->
    exists st' pre,
      k st' = Some res
      /\ after st = (pre ++ after st')%string
      /\ (flag = true -> has_digit pre = true).

(** The number of elements with a given tag. *)
Definition count_tag (t : string) (elems : list Element) : nat :=
  List.length (filter (fun e => String.eqb (tag e) t) elems).

(** The sub-tags an audit looks at: those of the nodes and ways. *)
Definition audited_tags (elems : list Element) : list Element :=
  flat_map (fun e => iter e "tag")
           (filter (fun e => String.eqb (tag e) "node"
                             || String.eqb (tag e) "way") elems).

(** The rows of the primary files carry this identifier. *)
Definition has_id (id : option string) (row : list (string * option string)) : Prop :=
  In ("id", id) row.

(** Every row of the dependent files points to a row of its primary
    file. *)
Definition linked (out : ProcessMap.files) : Prop :=
  (forall r, In r (ProcessMap.node_tags_file out) ->
     exists p, In p (ProcessMap.nodes_file out) /\ has_id (t_id r) p)
  /\ (forall r, In r (ProcessMap.way_tags_file out) ->
        exists p, In p (ProcessMap.ways_file out) /\ has_id (t_id r) p)
  /\ (forall r, In r (ProcessMap.way_nodes_file out) ->
        exists p, In p (ProcessMap.ways_file out) /\ has_id (nd_id r) p).

(** The values [clean_city_name] takes for English text: a first character
    that is a letter or a bar, and a second one that is no newline. *)
Definition starts_english (v : string) : bool :=
  match v with
  | String c1 (String c2 _) =>
      (is_alpha c1 || Ascii.eqb c1 "|") && negb (Ascii.eqb c2 (chr 10))
  | _ => false
  end.

(** No value of the mapping is itself a key. *)
Definition values_are_clean (m : dict) : bool :=
  forallb (fun kv => negb (str_in (snd kv) (keys m))) m.

(** A bare street number: one or two digits, with a capital letter after
    them or without. *)
Definition bare_number (s : string) : bool :=
  match s with
  | String a EmptyString => is_digit a
  | String a (String b EmptyString) => is_digit a && (is_digit b || is_upper b)
  | String a (String b (String c EmptyString)) =>
      is_digit a && is_digit b && is_upper c
  | _ => false
  end.

Definition digit_chars : list ascii := list_ascii_of_string "0123456789".

Definition upper_chars : list ascii :=
  list_ascii_of_string "ABCDEFGHIJKLMNOPQRSTUVWXYZ".

(** All the bare street numbers. *)
Definition bare_numbers : list string :=
  map (fun a => String a "") digit_chars
  ++ flat_map (fun a => map (fun b => String a (String b ""))
                            (digit_chars ++ upper_chars)) digit_chars
  ++ flat_map (fun a =>
       flat_map (fun b => map (fun c => String a (String b (String c "")))
                              upper_chars) digit_chars) digit_chars.

(** [clean_street_name] puts the street word in front of the value. *)
Definition gets_street_prefix (s : string) : bool :=
  match clean_street_name (Init s mapping_street_name expected_street_name) with
  | Ok out => String.eqb out ("Street " ++ s)
  | Raise _ => false
  end.

(** The characters that make a key unusable. *)
Definition problem_chars_list : list ascii :=
  list_ascii_of_string "=+/&<>;'?%#$@,. " ++ [chr 34; chr 9; chr 13; chr 10].

Definition is_problem_char (c : ascii) : bool :=
  existsb (Ascii.eqb c) problem_chars_list.

(** The member references of the ways of a stream. *)
Definition member_count (elems : list Element) : nat :=
  list_sum (map (fun e => List.length (iter e "nd"))
                (filter (fun e => String.eqb (tag e) "way") elems)).

(** One element taken and the next [k - 1] passed over, again and again;
    [skip] elements are passed over first. *)
Fixpoint every_kth_from {A : Type} (k skip : nat) (l : list A) : list A :=
  match l with
  | [] => []
  | x :: l' =>
      match skip with
      | 0 => x :: every_kth_from k (k - 1) l'
      | S skip' => every_kth_from k skip' l'
      end
  end.

Definition every_kth {A : Type} (k : nat) (l : list A) : list A :=
  every_kth_from k 0 l.

(** The strings of a list, one after the other. *)
Fixpoint join_all (l : list string) : string :=
  match l with
  | [] => EmptyString
  | x :: l' => (x ++ join_all l')%string
  end.

(** A sub-tag the audit of a key can read: it has a [k], and a [v] when
    the [k] is the audited key. *)
Definition auditable (audited_key : string) (tg : Element) : bool :=
  match lookup (attrib tg) "k" with
  | Some k => if String.eqb k audited_key then has_attr "v" tg else true
  | None => false
  end.

(** The sub-tag has the audited key and the given value. *)
Definition tagged (audited_key v : string) (tg : Element) : Prop :=
  lookup (attrib tg) "k" = Some audited_key /\ lookup (attrib tg) "v" = Some v.

(** The street type [audit_street_type] reads off a name. *)
Definition street_type (name : string) : option string :=
  match search AuditOSM.street_type_re name with
  | Some m => Some (AuditOSM.group m name)
  | None => None
  end.

(** A pattern that takes only characters that satisfy [q]. *)
Fixpoint takes_only (q : ascii -> bool) (r : regex) : bool :=
  match r with
  | Lit c => q c
  | Any => false
  | Class items =>
      forallb (fun n => implb (class_mem items (chr n)) (q (chr n))) (seq 0 256)
  | Seq r1 r2 | Alt r1 r2 => takes_only q r1 && takes_only q r2
  | Rep r1 _ _ | Group _ r1 => takes_only q r1
  | _ => true
  end.

(** A pattern every match of which takes a character. *)
Fixpoint takes_some (r : regex) : bool :=
  match r with
  | Lit _ | Any | Class _ => true
  | Seq r1 r2 => takes_some r1 || takes_some r2
  | Alt r1 r2 => takes_some r1 && takes_some r2
  | Rep r1 lo _ => match lo with 0 => false | S _ => takes_some r1 end
  | Group _ r1 => takes_some r1
  | _ => false
  end.

(** A pattern that ends in [$]. *)
Fixpoint ends_eol (r : regex) : bool :=
  match r with
  | Eol => true
  | Seq _ r2 => ends_eol r2
  | _ => false
  end.

(** A successful run takes text made of characters that satisfy [q], and
    some text when [flag] says so. *)
Definition passes (q : ascii -> bool) (flag : bool)
    (run : mstate -> (mstate -> option mstate) -> option mstate) : Prop :=
  forall st k res,
    run st k = Some res ->
    exists st' pre,
      k st' = Some res
      /\ after st = (pre ++ after st')%string
      /\ all_chars q pre = true
      /\ (flag = true -> pre <> EmptyString).

Definition not_space (c : ascii) : bool := negb (is_space c).


End Notions.

(* ===================================================================== *)
(** * Generic substitution: clean_value *)
(* ===================================================================== *)

Lemma str_in_keys_lookup (d : dict) (k : string) :
  str_in k (keys d) = match lookup d k with Some _ => true | None => false end.
Proof.
  induction d as [|[k' v] d IH]; simpl; [reflexivity|].
  destruct (String.eqb k k'); simpl; [reflexivity | exact IH].
Qed.

Lemma lookup_In (d : dict) (k v : string) :
  lookup d k = Some v -> In (k, v) d.
Proof.
  induction d as [|[k' v'] d IH]; simpl; [discriminate|].
  destruct (String.eqb_spec k k') as [->|_].
  - intros [= ->]. left; reflexivity.
  - intros H. right. apply IH, H.
Qed.

(** C8. [clean_value] returns the mapped value of an input that is a key
    of the mapping and the input itself otherwise; with the empty mapping it
    returns every input unchanged. *)
Theorem clean_value_lookup (v : string) (M : dict) (expected : list string) :
  clean_value (Init v M expected)
    = Ok (match lookup M v with Some x => x | None => v end)
  /\ clean_value (Init v [] expected) = Ok v.
Proof.
  split; [|reflexivity].
  unfold clean_value, getitem; simpl.
  rewrite str_in_keys_lookup.
  destruct (lookup M v); reflexivity.
Qed.

(* ===================================================================== *)
(** * Street names: the first step *)
(* ===================================================================== *)

(** With no key inside the value the loop leaves its variable alone. *)
Lemma update_loop_no_key (self : cleanOSM) (ks : list string) (cv : string) :
  forallb (fun k => negb (contains k (dirty_value self))) ks = true ->
  update_loop self ks cv = Ok cv.
Proof.
  revert cv. induction ks as [|k ks IH]; intros cv H; simpl in *; [reflexivity|].
  apply andb_prop in H as [Hk Hks].
  destruct (contains k (dirty_value self)); [discriminate|].
  apply IH, Hks.
Qed.

(** What the loop returns is its starting value or the substitution of a
    single key in the dirty value: substitutions do not add up. *)
Lemma update_loop_single (self : cleanOSM) (ks : list string) (cv out : string) :
  update_loop self ks cv = Ok out ->
  out = cv \/
  exists key rx v,
    In key ks /\ key_regex key = Ok rx /\ getitem (mapping self) key = Ok v
    /\ sub rx (fun _ => Ok v) (dirty_value self) = Ok out.
Proof.
  revert cv. induction ks as [|k ks IH]; intros cv; simpl.
  - intros [= ->]. left; reflexivity.
  - destruct (contains k (dirty_value self)).
    + destruct (key_regex k) as [rx|] eqn:Hrx; simpl; [|discriminate].
      destruct (found rx (dirty_value self)).
      * destruct (getitem (mapping self) k) as [v|] eqn:Hv; simpl; [|discriminate].
        unfold template. destruct (has_char "\" v); simpl; [discriminate|].
        destruct (sub rx (fun _ => Ok v) (dirty_value self)) as [new|] eqn:Hs;
          simpl; [|discriminate].
        intros H. apply IH in H as [->|(key & rx' & v' & Hin & H1 & H2 & H3)].
        -- right. exists k, rx, v. repeat split; auto.
        -- right. exists key, rx', v'. repeat split; auto.
      * intros H. apply IH in H as [->|(key & rx' & v' & Hin & H1 & H2 & H3)].
        -- left; reflexivity.
        -- right. exists key, rx', v'. repeat split; auto.
    + intros H. apply IH in H as [->|(key & rx' & v' & Hin & H1 & H2 & H3)].
      * left; reflexivity.
      * right. exists key, rx', v'. repeat split; auto.
Qed.

(** C1, at a value with two mapping keys as whole words: the first step
    replaces [Rd] and leaves [St] as it was, since each substitution starts
    again from the dirty value. *)
Theorem update_street_name_keeps_one :
  update_street_name
    (Init "Main St near Airport Rd" mapping_street_name expected_street_name)
  = Ok "Main St near Airport Road".
Proof. vm_compute. reflexivity. Qed.

(** The same value in any iteration order of the mapping: the output is
    never the value with both keys replaced. *)
Lemma update_street_name_any_order (m : dict) :
  Permutation mapping_street_name m ->
  update_street_name (Init "Main St near Airport Rd" m expected_street_name)
  <> Ok "Main Street near Airport Road".
Proof.
  intros HP H. unfold update_street_name in H.
  apply update_loop_single in H as [H|(key & rx & v & Hin & Hrx & Hv & Hs)].
  - discriminate H.
  - simpl in *.
    assert (Hval : In (key, v) mapping_street_name).
    { unfold getitem in Hv.
      destruct (lookup m key) as [v'|] eqn:Hl; [|discriminate].
      injection Hv as ->. apply lookup_In in Hl.
      eapply Permutation_in; [apply Permutation_sym, HP | exact Hl]. }
    simpl in Hval.
    repeat (destruct Hval as [Hval|Hval];
            [injection Hval as <- <-; vm_compute in Hrx; injection Hrx as <-;
             vm_compute in Hs; discriminate Hs|]).
    exact Hval.
Qed.

(* ===================================================================== *)
(** * Street names: the scenario of the letter before the number *)
(* ===================================================================== *)

Lemma any_expected_in_In (self : cleanOSM) (value name : string) :
  In value (expected_values self) -> contains value name = true ->
  any_expected_in self name = true.
Proof.
  intros Hin Hc. unfold any_expected_in. apply existsb_exists.
  exists value. split; assumption.
Qed.

(** C2 as the specification has it fails: with the mapping and the
    canonical list of the scenario, ["E11"] is not nulled. *)
Lemma clean_street_name_E11_not_nulled :
  clean_street_name (Init "E11" [("st", "Street")] ["Street"]) <> Ok "None".
Proof. vm_compute. discriminate. Qed.

(** C2, amended.  For every mapping none of whose keys occurs in ["E11"]
    and every canonical list that contains ["Street"], [clean_street_name]
    turns ["E11"] into ["Street 11E"]: the swap gives ["11E"] and
    [add_street_prefix] puts the street word in front of it, so the value
    holds a canonical word and is kept. *)
Theorem clean_street_name_E11 (M : dict) (expected : list string) :
  forallb (fun k => negb (contains k "E11")) (keys M) = true ->
  In "Street" expected ->
  clean_street_name (Init "E11" M expected) = Ok "Street 11E".
Proof.
  intros Hkeys Hin.
  unfold clean_street_name, update_street_name.
  rewrite update_loop_no_key by exact Hkeys.
  cbn [bind dirty_value].
  replace (remove_brackets (capwords "E11")) with (Ok "E11")
    by (vm_compute; reflexivity).
  cbn [bind].
  replace (street_letter_to_uppercase_and_removegap "E11") with (Ok "E11")
    by (vm_compute; reflexivity).
  cbn [bind].
  replace (switch_digit_position "E11") with (Ok "11E")
    by (vm_compute; reflexivity).
  cbn [bind].
  replace (remove_hypen_space_and_switch "11E") with (Ok "11E")
    by (vm_compute; reflexivity).
  cbn [bind].
  replace (put_number_after_street "11E") with (Ok "11E")
    by (vm_compute; reflexivity).
  cbn [bind].
  replace (add_street_prefix "11E") with (Ok "Street 11E")
    by (vm_compute; reflexivity).
  cbn [bind].
  unfold remove_non_street_values.
  rewrite (any_expected_in_In _ "Street" "Street 11E") by (auto; reflexivity).
  reflexivity.
Qed.

Lemma clean_street_name_E11_witness :
  clean_street_name (Init "E11" mapping_street_name expected_street_name)
  = Ok "Street 11E".
Proof.
  apply clean_street_name_E11.
  - reflexivity.
  - simpl. left. reflexivity.
Defined.

(* ===================================================================== *)
(** * Street names: a second application *)
(* ===================================================================== *)


(* ===================================================================== *)
(** * City names *)
(* ===================================================================== *)

(** C3 as the specification has it fails: the input below is a key of the
    city mapping and its capitalized form equals no canonical name, yet the
    canonical name found inside it is returned, not the mapped value. *)
Lemma clean_city_name_substring_first :
  str_in (capwords "Mussafah M 45- Abu Dhabi") expected_cities = false
  /\ lookup mapping_city "Mussafah M 45- Abu Dhabi" = Some "Mussafah"
  /\ clean_city_name
       (Init "Mussafah M 45- Abu Dhabi" mapping_city expected_cities)
     = Ok "Abu Dhabi"
  /\ clean_city_name
       (Init "Mussafah M 45- Abu Dhabi" mapping_city expected_cities)
     <> Ok "Mussafah".
Proof. repeat split; vm_compute; [reflexivity .. | discriminate]. Qed.

(** C3, amended.  The canonical check is a containment test: when no
    canonical name occurs inside the capitalized input and the input is a key
    of the mapping, [clean_city_name] returns the mapped value; when some
    canonical name occurs inside the capitalized input, the first such name
    of the list is returned, whatever the mapping says. *)
Theorem clean_city_name_mapped
    (v : string) (M : dict) (expected : list string) :
  (forall x,
     forallb (fun c => negb (contains c (capwords v))) expected = true ->
     lookup M v = Some x ->
     clean_city_name (Init v M expected) = Ok x)
  /\ (forall c,
        find (fun c => contains c (capwords v)) expected = Some c ->
        clean_city_name (Init v M expected) = Ok c).
Proof.
  split.
  - intros x Hnone Hx.
    unfold clean_city_name, is_expected_city. cbn [dirty_value expected_values].
    assert (Hf : find (fun c => contains c (capwords v)) expected = None).
    { destruct (find _ expected) as [c|] eqn:Hf; [|reflexivity].
      apply find_some in Hf as [Hin Hc].
      rewrite forallb_forall in Hnone. specialize (Hnone c Hin).
      rewrite Hc in Hnone. discriminate. }
    rewrite Hf. cbn [fst snd mapping].
    rewrite str_in_keys_lookup, Hx.
    unfold clean_value, getitem. cbn [dirty_value CleanOSM.mapping].
    rewrite str_in_keys_lookup, Hx. reflexivity.
  - intros c Hf.
    unfold clean_city_name, is_expected_city. cbn [dirty_value expected_values].
    rewrite Hf. reflexivity.
Qed.

Lemma clean_city_name_mapped_witness :
  clean_city_name (Init "Duba" mapping_city expected_cities) = Ok "Dubai"
  /\ clean_city_name (Init "dubai marina" mapping_city expected_cities)
     = Ok "Dubai".
Proof.
  split.
  - apply (proj1 (clean_city_name_mapped "Duba" mapping_city expected_cities)).
    + reflexivity.
    + reflexivity.
  - apply (proj2 (clean_city_name_mapped "dubai marina" mapping_city
                    expected_cities)).
    reflexivity.
Defined.

(** C5, at a one-letter input: it starts with a letter, no canonical name
    occurs in it, it is no key of the mapping and no junk literal, and it is
    nulled: the pattern asks for a second character after the letters. *)
Theorem clean_city_name_one_letter :
  fst (is_expected_city (Init "a" mapping_city expected_cities)) = false
  /\ str_in "a" (keys mapping_city) = false
  /\ str_in "a" wrong_entry = false
  /\ capwords "a" = "A"
  /\ clean_city_name (Init "a" mapping_city expected_cities) = Ok "None".
Proof. repeat split; vm_compute; reflexivity. Qed.

(* ===================================================================== *)
(** * The matcher: groups of a successful match *)
(* ===================================================================== *)

Lemma extends_refl (st : mstate) : extends st st.
Proof. intros n H; exact H. Qed.

Lemma extends_trans (a b c : mstate) :
  extends a b -> extends b c -> extends a c.
Proof. intros H1 H2 n H. apply H2, H1, H. Qed.

Lemma one_hands_over (p : ascii -> bool) : hands_over [] (one p).
Proof.
  intros st k res H. unfold one in H.
  destruct (after st) as [|c rest]; [discriminate|].
  destruct (p c); [|discriminate].
  exists (advance c rest st). split; [exact H|]. split.
  - intros n Hn. exact Hn.
  - intros n [].
Qed.

Lemma rep_loop_hands_over
    (body : mstate -> (mstate -> option mstate) -> option mstate)
    (sure_body : list nat) (k : mstate -> option mstate) :
  hands_over sure_body body ->
  forall n lo st res,
    rep_loop body k n lo st = Some res ->
    exists st',
      k st' = Some res /\ extends st st'
      /\ (lo <> 0 -> forall g, In g sure_body -> cap_set g st').
Proof.
  intros Hbody. induction n as [|n IH]; intros lo st res H; simpl in H.
  - destruct lo; [|discriminate].
    exists st. split; [exact H|]. split; [apply extends_refl|].
    intros Hlo; contradiction.
  - destruct (body st (fun st1 => rep_loop body k n (pred lo) st1))
      as [res0|] eqn:Hb.
    + injection H as ->.
      apply Hbody in Hb as (st1 & Hrest & Hext1 & Hsure1).
      apply IH in Hrest as (st' & Hk & Hext' & _).
      exists st'. split; [exact Hk|]. split.
      * eapply extends_trans; eassumption.
      * intros _ g Hg. apply Hext', Hsure1, Hg.
    + destruct lo; [|discriminate].
      exists st. split; [exact H|]. split; [apply extends_refl|].
      intros Hlo; contradiction.
Qed.

(** A successful match has set the groups of [sure], and keeps what was
    set before. *)
Lemma exec_hands_over (r : regex) : hands_over (sure r) (exec r).
Proof.
  induction r as [| c | | items | r1 IH1 r2 IH2 | r1 IH1 r2 IH2
                  | r1 IH1 lo hi | g r1 IH1 | | | | w r1 IH1 | r1 IH1];
    intros st k res H; simpl in H.
  - exists st. split; [exact H|]. split; [apply extends_refl | intros n []].
  - apply one_hands_over in H. exact H.
  - apply one_hands_over in H. exact H.
  - apply one_hands_over in H. exact H.
  - apply IH1 in H as (st1 & H2 & Hext1 & Hsure1).
    apply IH2 in H2 as (st' & Hk & Hext2 & Hsure2).
    exists st'. split; [exact Hk|]. split.
    + eapply extends_trans; eassumption.
    + intros n Hn. simpl in Hn. apply in_app_or in Hn as [Hn|Hn].
      * apply Hext2, Hsure1, Hn.
      * apply Hsure2, Hn.
  - destruct (exec r1 st k) as [res1|] eqn:H1.
    + injection H as ->.
      apply IH1 in H1 as (st' & Hk & Hext & Hsure).
      exists st'. split; [exact Hk|]. split; [exact Hext|].
      intros n Hn. simpl in Hn. apply filter_In in Hn as [Hn _].
      apply Hsure, Hn.
    + apply IH2 in H as (st' & Hk & Hext & Hsure).
      exists st'. split; [exact Hk|]. split; [exact Hext|].
      intros n Hn. simpl in Hn. apply filter_In in Hn as [_ Hn].
      apply existsb_exists in Hn as (n' & Hn' & Heq).
      apply Nat.eqb_eq in Heq. subst n'. apply Hsure, Hn'.
  - apply (rep_loop_hands_over _ _ _ IH1) in H as (st' & Hk & Hext & Hsure).
    exists st'. split; [exact Hk|]. split; [exact Hext|].
    intros n Hn. simpl in Hn. destruct lo; [destruct Hn|].
    apply Hsure; [discriminate | exact Hn].
  - apply IH1 in H as (st1 & Hk & Hext & Hsure).
    exists (MS (before st1) (after st1) ((g, consumed st st1) :: caps st1)).
    split; [exact Hk|]. split.
    + intros n Hn. apply Hext in Hn. unfold cap_set in *. simpl.
      destruct (g =? n); [discriminate | exact Hn].
    + intros n Hn. simpl in Hn. unfold cap_set. simpl.
      destruct (Nat.eqb_spec g n) as [_|Hne]; [discriminate|].
      destruct Hn as [Hn|Hn]; [contradiction|].
      apply Hsure, Hn.
  - destruct (before st); [|discriminate].
    exists st. split; [exact H|]. split; [apply extends_refl | intros n []].
  - destruct (at_eol st); [|discriminate].
    exists st. split; [exact H|]. split; [apply extends_refl | intros n []].
  - destruct (at_word_boundary st); [|discriminate].
    exists st. split; [exact H|]. split; [apply extends_refl | intros n []].
  - exists st. split; [|split; [apply extends_refl | intros n []]].
    destruct (step_back w (before st) (after st)) as [[bef aft]|]; [|exact H].
    destruct (exec r1 (MS bef aft (caps st)) Some); [discriminate | exact H].
  - exists st. split; [|split; [apply extends_refl | intros n []]].
    destruct (exec r1 st Some); [discriminate | exact H].
Qed.

(** [m.groups()[i]] of a match is a string when group [i + 1] is one of
    the sure groups of the pattern. *)
Lemma match_at_group_str (r : regex) (pre : list ascii) (s : string)
    (m : match_obj) (i : nat) :
  match_at r pre s = Some m ->
  In (S i) (sure r) -> i < ngroups r ->
  exists g, group_str m i = Ok g.
Proof.
  unfold match_at. intros H Hin Hlt.
  destruct (exec r (MS pre s []) Some) as [st|] eqn:He; [|discriminate].
  injection H as <-.
  apply exec_hands_over in He as (st' & [= ->] & _ & Hsure).
  specialize (Hsure _ Hin). unfold cap_set in Hsure.
  unfold group_str, index. cbn [groups].
  rewrite nth_error_map, nth_error_seq.
  apply Nat.ltb_lt in Hlt. rewrite Hlt. cbn.
  destruct (cap_get (S i) (caps st)) as [g|]; [|contradiction].
  exists g. reflexivity.
Qed.

(** [re.sub] returns when the replacement function does on every match. *)
Lemma sub_loop_returns (r : regex) (repl : match_obj -> result string) :
  (forall pre s m, match_at r pre s = Some m -> exists o, repl m = Ok o) ->
  forall s pre skip adj, exists o, sub_loop r repl pre s skip adj = Ok o.
Proof.
  intros Hrepl. induction s as [|c s IH]; intros pre skip adj.
  - destruct skip; simpl; [|eexists; reflexivity].
    destruct (match_at r pre "") as [m|] eqn:Hm; [|eexists; reflexivity].
    destruct (Hrepl _ _ _ Hm) as [o Ho].
    destruct (m_len m); [destruct adj|]; rewrite ?Ho; simpl; eexists; reflexivity.
  - destruct skip as [|k]; simpl.
    + destruct (IH (c :: pre) 0 false) as [rest Hrest].
      destruct (match_at r pre (String c s)) as [m|] eqn:Hm.
      * destruct (Hrepl _ _ _ Hm) as [o Ho].
        destruct (m_len m) as [|l].
        -- destruct adj; rewrite ?Ho, Hrest; simpl; eexists; reflexivity.
        -- destruct (IH (c :: pre) l (l =? 0)) as [rest' Hrest'].
           rewrite Ho, Hrest'. simpl. eexists; reflexivity.
      * rewrite Hrest. simpl. eexists; reflexivity.
    + apply IH.
Qed.

Lemma sub_returns (r : regex) (repl : match_obj -> result string) (s : string) :
  (forall pre s m, match_at r pre s = Some m -> exists o, repl m = Ok o) ->
  exists o, sub r repl s = Ok o.
Proof. intros H. apply sub_loop_returns, H. Qed.

(* ===================================================================== *)
(** * The namespace pattern *)
(* ===================================================================== *)

Lemma consumed_one (st : mstate) (c : ascii) (rest : string) :
  after st = String c rest ->
  consumed st (advance c rest st) = String c "".
Proof.
  intros H. unfold consumed, advance. rewrite H. cbn [after String.length].
  replace (S (String.length rest) - String.length rest) with 1 by lia.
  reflexivity.
Qed.

Lemma lower_not_underscore (c : ascii) :
  is_lower c = true -> Ascii.eqb "_" c = false.
Proof.
  intros H. destruct (Ascii.eqb_spec "_" c) as [<-|_]; [|reflexivity].
  vm_compute in H. discriminate.
Qed.

(** One character of a segment, or failure. *)
Lemma exec_seg_group (g : nat) (st : mstate) (k : mstate -> option mstate) :
  exec (seg_group g) st k =
  match after st with
  | String c rest =>
      if is_seg_char c
      then k (MS (c :: before st) rest ((g, String c "") :: caps st))
      else None
  | EmptyString => None
  end.
Proof.
  unfold seg_group. cbn [exec]. unfold one.
  destruct (after st) as [|c rest] eqn:Ha; [reflexivity|].
  unfold class_mem, is_seg_char. cbn [existsb citem_mem].
  change (between (nat_of_ascii "a") (nat_of_ascii "z") c) with (is_lower c).
  rewrite orb_false_r.
  rewrite (consumed_one st c rest Ha). cbn [advance before after caps].
  destruct (is_lower c) eqn:Hl; cbn [orb].
  - rewrite (lower_not_underscore c Hl).
    destruct (k _); reflexivity.
  - rewrite (Ascii.eqb_sym c "_"). reflexivity.
Qed.

(** A repetition that ends at the continuation, always succeeds. *)
Lemma rep_loop_some
    (body : mstate -> (mstate -> option mstate) -> option mstate)
    (n : nat) (st : mstate) :
  succeeds (rep_loop body Some n 0 st) = true.
Proof.
  destruct n; simpl; [reflexivity|].
  destruct (body st _); reflexivity.
Qed.

(** The greedy loop over a segment, before a continuation whose success
    is decided by the text that follows and that fails in front of a segment
    character: the loop succeeds when the whole segment is long enough and
    the continuation succeeds after it. *)
Lemma rep_loop_segment (g : nat) (K : mstate -> option mstate)
    (P : string -> bool) :
  (forall st, succeeds (K st) = P (after st)) ->
  (forall c rest, is_seg_char c = true -> P (String c rest) = false) ->
  forall s n lo bef cps,
    String.length s <= n ->
    succeeds (rep_loop (exec (seg_group g)) K n lo (MS bef s cps))
    = (lo <=? String.length (fst (span is_seg_char s)))
      && P (snd (span is_seg_char s)).
Proof.
  intros HK HP. induction s as [|c s IH]; intros n lo bef cps Hn.
  - cbn [span fst snd String.length].
    destruct n; cbn [rep_loop].
    + destruct lo; [rewrite HK; reflexivity | reflexivity].
    + rewrite exec_seg_group. cbn [after].
      destruct lo; [rewrite HK; reflexivity | reflexivity].
  - destruct n as [|n]; [cbn in Hn; lia|].
    cbn [rep_loop]. rewrite exec_seg_group. cbn [after before caps].
    cbn [span]. destruct (is_seg_char c) eqn:Hc.
    + specialize (IH n (pred lo) (c :: bef) ((g, String c "") :: cps)).
      assert (Hn' : String.length s <= n) by (cbn in Hn; lia).
      specialize (IH Hn').
      destruct (span is_seg_char s) as [seg rest] eqn:Hsp.
      cbn [fst snd String.length] in *.
      destruct (rep_loop (exec (seg_group g)) K n (pred lo)
                  (MS (c :: bef) s ((g, String c "") :: cps))) as [res|].
      * cbn [succeeds] in *. symmetry in IH.
        apply andb_prop in IH as [Hlo HPr]. rewrite HPr, andb_true_r.
        apply Nat.leb_le in Hlo. symmetry. apply Nat.leb_le. lia.
      * cbn [succeeds] in IH.
        assert (HKst : succeeds (match lo with
                                 | 0 => K (MS bef (String c s) cps)
                                 | S _ => None
                                 end) = false).
        { destruct lo; [|reflexivity].
          rewrite HK. cbn [after]. apply HP, Hc. }
        rewrite HKst. symmetry in IH. symmetry.
        apply andb_false_iff in IH as [Hlo|HPr].
        -- apply andb_false_iff. left.
           apply Nat.leb_gt in Hlo. apply Nat.leb_gt. lia.
        -- rewrite HPr. apply andb_false_r.
    + cbn [fst snd String.length].
      destruct lo; [rewrite HK; reflexivity | reflexivity].
Qed.

Lemma colon_then_segment (st : mstate) :
  succeeds
    (exec (Seq (Lit ":") (plus (seg_group 2))) st Some)
  = after_segment (after st).
Proof.
  cbn [exec plus]. unfold one.
  destruct (after st) as [|sep rest]; [reflexivity|].
  cbn [after_segment]. rewrite (Ascii.eqb_sym ":" sep).
  destruct (Ascii.eqb sep ":"); cbn [andb].
  - cbn [advance after]. destruct rest as [|c rest]; [reflexivity|].
    cbn [String.length rep_loop]. rewrite exec_seg_group.
    cbn [advance after before caps pred].
    destruct (is_seg_char c); [|reflexivity].
    pose proof (rep_loop_some (exec (seg_group 2)) (String.length rest)
                  (MS (c :: sep :: before st) rest
                      ((2, String c "") :: caps st))) as Hs.
    destruct (rep_loop _ _ _ _ _); [reflexivity | discriminate Hs].
  - destruct rest; reflexivity.
Qed.

Lemma after_segment_seg_char (c : ascii) (rest : string) :
  is_seg_char c = true -> after_segment (String c rest) = false.
Proof.
  intros Hc. cbn [after_segment]. destruct rest; [reflexivity|].
  destruct (Ascii.eqb_spec c ":") as [->|_]; [|reflexivity].
  vm_compute in Hc. discriminate.
Qed.

(** A pattern anchored by [^] has no match after the first position. *)
Lemma search_from_bol (r : regex) (s : string) (c : ascii) (pre : list ascii) :
  search_from (Seq Bol r) (c :: pre) s = None.
Proof.
  revert c pre. induction s as [|a s IH]; intros c pre; cbn [search_from].
  - reflexivity.
  - unfold match_at at 1. cbn [exec before]. apply IH.
Qed.

Lemma found_bol (r : regex) (s : string) :
  found (Seq Bol r) s = succeeds (exec r (MS [] s []) Some).
Proof.
  unfold found, search. destruct s as [|c s]; cbn [search_from].
  - unfold match_at. cbn [exec before].
    destruct (exec r (MS [] "" []) Some); reflexivity.
  - unfold match_at at 1. cbn [exec before].
    destruct (exec r (MS [] (String c s) []) Some); [reflexivity|].
    rewrite search_from_bol. reflexivity.
Qed.

(** The namespace pattern is found in a key exactly when the key has a
    namespace split. *)
Lemma found_LOWER_COLON (k : string) :
  found LOWER_COLON k
  = match namespace_split k with Some _ => true | None => false end.
Proof.
  unfold LOWER_COLON. cbn [seqs]. rewrite found_bol.
  change (exec (Seq (plus (Group 1 (Alt (Class [Range "a" "z"]) (Lit "_"))))
                    (Seq (Lit ":")
                         (plus (Group 2 (Alt (Class [Range "a" "z"]) (Lit "_"))))))
               (MS [] k []) Some)
    with (rep_loop (exec (seg_group 1))
            (fun st1 => exec (Seq (Lit ":") (plus (seg_group 2))) st1 Some)
            (String.length k) 1 (MS [] k [])).
  rewrite (rep_loop_segment 1 _ after_segment colon_then_segment
             after_segment_seg_char k (String.length k) 1 [] [] (le_n _)).
  unfold namespace_split.
  destruct (span is_seg_char k) as [seg rest]. cbn [fst snd].
  destruct seg as [|a seg]; cbn [String.length Nat.leb andb]; [reflexivity|].
  destruct rest as [|sep [|c rest]]; cbn [after_segment]; try reflexivity.
  destruct (Ascii.eqb sep ":" && is_seg_char c); reflexivity.
Qed.

(** A key with a namespace split is cut by [split(':', 1)] into its
    namespace and its local key; the namespace holds no colon. *)
Lemma split_first_span (k seg rest : string) :
  span is_seg_char k = (seg, String ":" rest) ->
  split_first ":" k = [seg; rest]
  /\ k = (seg ++ String ":" rest)%string
  /\ has_char ":" seg = false.
Proof.
  revert seg. induction k as [|a k IH]; intros seg; cbn [span].
  - discriminate.
  - destruct (is_seg_char a) eqn:Ha.
    + destruct (span is_seg_char k) as [seg' rest'] eqn:Hsp.
      intros [= <- ->].
      destruct (IH seg' eq_refl) as (Hs & Hk & Hc).
      assert (Hne : Ascii.eqb a ":" = false).
      { destruct (Ascii.eqb_spec a ":") as [->|_]; [|reflexivity].
        vm_compute in Ha. discriminate. }
      cbn [split_first has_char]. rewrite Hne, Hs, Hc.
      repeat split. cbn. rewrite <- Hk. reflexivity.
    + intros [= <- -> ->]. cbn [split_first]. rewrite Ascii.eqb_refl.
      repeat split.
Qed.

Lemma namespace_split_first (k ns loc : string) :
  namespace_split k = Some (ns, loc) ->
  split_first ":" k = [ns; loc]
  /\ k = (ns ++ String ":" loc)%string
  /\ has_char ":" ns = false.
Proof.
  unfold namespace_split.
  destruct (span is_seg_char k) as [seg rest] eqn:Hsp.
  destruct seg as [|a seg]; [discriminate|].
  destruct rest as [|sep [|c rest]]; try discriminate.
  destruct (Ascii.eqb_spec sep ":") as [->|_]; cbn [andb]; [|discriminate].
  destruct (is_seg_char c); [|discriminate].
  intros [= <- <-]. apply split_first_span, Hsp.
Qed.

(* ===================================================================== *)
(** * Every cleaning step returns *)
(* ===================================================================== *)

(** Looks up the groups a replacement function reads, in a match of a
    given pattern. *)
Ltac read_group H i :=
  let g := fresh "g" in
  let Hg := fresh "Hg" in
  destruct (match_at_group_str _ _ _ _ i H) as [g Hg];
  [ cbv; tauto | apply Nat.ltb_lt; reflexivity | rewrite Hg; cbn [bind] ].

Lemma remove_brackets_returns (name : string) :
  exists o, remove_brackets name = Ok o.
Proof.
  unfold remove_brackets. destruct (found brackets_regex name).
  - apply sub_returns. intros pre s m H.
    read_group H 0. eexists; reflexivity.
  - eexists; reflexivity.
Qed.

Lemma street_letter_returns (name : string) :
  exists o, street_letter_to_uppercase_and_removegap name = Ok o.
Proof.
  unfold street_letter_to_uppercase_and_removegap.
  destruct (found letter_regex name).
  - apply sub_returns. intros pre s m H. unfold replfunc.
    read_group H 0. read_group H 1. eexists; reflexivity.
  - eexists; reflexivity.
Qed.

Lemma switch_digit_position_returns (name : string) :
  exists o, switch_digit_position name = Ok o.
Proof.
  unfold switch_digit_position. destruct (found switch_regex name).
  - apply sub_returns. intros pre s m H. unfold switchfunc.
    read_group H 1. read_group H 0. eexists; reflexivity.
  - eexists; reflexivity.
Qed.

Lemma remove_hypen_returns (name : string) :
  exists o, remove_hypen_space_and_switch name = Ok o.
Proof.
  unfold remove_hypen_space_and_switch. destruct (found hypen_regex name).
  - apply sub_returns. intros pre s m H. unfold switchfunc.
    read_group H 2. read_group H 1. eexists; reflexivity.
  - eexists; reflexivity.
Qed.

Lemma put_number_after_street_returns (name : string) :
  exists o, put_number_after_street name = Ok o.
Proof.
  unfold put_number_after_street. destruct (found number_regex name).
  - apply sub_returns. intros pre s m H. unfold switch_number.
    read_group H 2. read_group H 1. eexists; reflexivity.
  - eexists; reflexivity.
Qed.

Lemma add_street_prefix_returns (name : string) :
  exists o, add_street_prefix name = Ok o.
Proof.
  unfold add_street_prefix. destruct (found prefix_regex name).
  - apply sub_returns. intros pre s m H.
    read_group H 1. eexists; reflexivity.
  - destruct (found prefix_regex_1 name).
    + apply sub_returns. intros pre s m H.
      read_group H 0. eexists; reflexivity.
    + eexists; reflexivity.
Qed.

Lemma wf_mapping_In (m : dict) (k v : string) :
  wf_mapping m = true -> In (k, v) m ->
  (exists rx, parse_key k = Ok rx) /\ template v = Ok v.
Proof.
  unfold wf_mapping. rewrite forallb_forall. intros Hwf Hin.
  specialize (Hwf _ Hin). cbn [fst snd] in Hwf.
  apply andb_prop in Hwf as [Hk Hv]. split.
  - destruct (parse_key k) as [rx|]; [eexists; reflexivity | discriminate].
  - unfold template in *. destruct (has_char "\" v); [discriminate | reflexivity].
Qed.

Lemma lookup_keys (d : dict) (k : string) :
  In k (keys d) -> exists v, lookup d k = Some v.
Proof.
  induction d as [|[k' v'] d IH]; cbn [keys map fst lookup In].
  - intros [].
  - intros [->|Hin].
    + rewrite String.eqb_refl. eexists; reflexivity.
    + destruct (String.eqb k k'); [eexists; reflexivity|].
      apply IH, Hin.
Qed.

Lemma update_loop_returns (self : cleanOSM) (ks : list string) (cv : string) :
  wf_mapping (mapping self) = true ->
  (forall k, In k ks -> In k (keys (mapping self))) ->
  exists o, update_loop self ks cv = Ok o.
Proof.
  intros Hwf. revert cv. induction ks as [|k ks IH]; intros cv Hks; cbn [update_loop].
  - eexists; reflexivity.
  - assert (Hks' : forall k0, In k0 ks -> In k0 (keys (mapping self)))
      by (intros k0 H0; apply Hks; right; exact H0).
    destruct (contains k (dirty_value self)); [|apply IH, Hks'].
    destruct (lookup_keys _ _ (Hks k (or_introl eq_refl))) as [v Hv].
    destruct (wf_mapping_In _ _ _ Hwf (lookup_In _ _ _ Hv)) as [[rx Hrx] Ht].
    unfold key_regex. rewrite Hrx. cbn [bind].
    destruct (found _ (dirty_value self)); [|apply IH, Hks'].
    unfold getitem. rewrite Hv. cbn [bind]. rewrite Ht. cbn [bind].
    destruct (sub_returns
                (seqs [WordB; Group 1 rx; WordB;
                       opt (Group 2 (Alt (Lit ".") (Lit "`")))])
                (fun _ => Ok v) (dirty_value self)) as [new Hnew].
    { intros; eexists; reflexivity. }
    rewrite Hnew. cbn [bind]. apply IH, Hks'.
Qed.

Lemma update_street_name_returns (self : cleanOSM) :
  wf_mapping (mapping self) = true ->
  exists o, update_street_name self = Ok o.
Proof.
  intros Hwf. apply update_loop_returns; [exact Hwf | auto].
Qed.

Lemma clean_street_name_returns (self : cleanOSM) :
  wf_mapping (mapping self) = true ->
  exists o, clean_street_name self = Ok o.
Proof.
  intros Hwf. unfold clean_street_name.
  destruct (update_street_name_returns self Hwf) as [n1 ->]. cbn [bind].
  destruct (remove_brackets_returns (capwords n1)) as [n2 ->]. cbn [bind].
  destruct (street_letter_returns n2) as [n3 ->]. cbn [bind].
  destruct (switch_digit_position_returns n3) as [n4 ->]. cbn [bind].
  destruct (remove_hypen_returns n4) as [n5 ->]. cbn [bind].
  destruct (put_number_after_street_returns n5) as [n6 ->]. cbn [bind].
  destruct (add_street_prefix_returns n6) as [n7 ->]. cbn [bind].
  destruct (negb _); eexists; reflexivity.
Qed.

Lemma clean_value_returns (self : cleanOSM) :
  exists o, clean_value self = Ok o.
Proof.
  unfold clean_value, getitem. rewrite str_in_keys_lookup.
  destruct (lookup (mapping self) (dirty_value self));
    eexists; reflexivity.
Qed.

Lemma clean_city_name_returns (self : cleanOSM) :
  exists o, clean_city_name self = Ok o.
Proof.
  unfold clean_city_name.
  destruct (fst (is_expected_city self)); [eexists; reflexivity|].
  destruct (str_in _ (keys _)); [apply clean_value_returns|].
  destruct (found regex_english _); [|eexists; reflexivity].
  destruct (str_in _ wrong_entry); eexists; reflexivity.
Qed.

(* ===================================================================== *)
(** * Tag rows *)
(* ===================================================================== *)

Lemma has_attr_getitem (name : string) (e : Element) :
  has_attr name e = true -> exists x, getitem (attrib e) name = Ok x.
Proof.
  unfold has_attr, get, getitem.
  destruct (lookup (attrib e) name); [eexists; reflexivity | discriminate].
Qed.

Lemma wf_mapping_street_name : wf_mapping mapping_street_name = true.
Proof. reflexivity. Qed.

(** The value of a tag row, for a key and a raw value: what both branches
    of [shape_element] compute. *)
Lemma tag_value_returns (k v : string) :
  exists value,
    (if String.eqb k "addr:street" then
       clean_street_name (Init v mapping_street_name expected_street_name)
     else if String.eqb k "building" then clean_value (Init v mapping_building [])
     else if String.eqb k "surface" then clean_value (Init v mapping_surface [])
     else if String.eqb k "oneway" then Ok (set_to_none (Init v [] []))
     else if String.eqb k "addr:city" then
       clean_city_name (Init v mapping_city expected_cities)
     else Ok v) = Ok value.
Proof.
  destruct (String.eqb k "addr:street").
  { apply clean_street_name_returns, wf_mapping_street_name. }
  destruct (String.eqb k "building"); [apply clean_value_returns|].
  destruct (String.eqb k "surface"); [apply clean_value_returns|].
  destruct (String.eqb k "oneway"); [eexists; reflexivity|].
  destruct (String.eqb k "addr:city"); [apply clean_city_name_returns|].
  eexists; reflexivity.
Qed.

Lemma unpack2_returns (k : string) :
  found LOWER_COLON k = true ->
  exists tk, unpack2 (split_first ":" k) = Ok tk.
Proof.
  rewrite found_LOWER_COLON.
  destruct (namespace_split k) as [[ns loc]|] eqn:Hns; [|discriminate].
  intros _. destruct (namespace_split_first _ _ _ Hns) as (-> & _ & _).
  eexists; reflexivity.
Qed.

Lemma node_tag_returns (element tg : Element)
    (problem_chars arabic_chars : regex) (default_tag_type : string) :
  has_attr "k" tg = true -> has_attr "v" tg = true ->
  exists row,
    node_tag element tg problem_chars arabic_chars default_tag_type = Ok row.
Proof.
  intros Hk Hv.
  destruct (has_attr_getitem _ _ Hk) as [k Hgk].
  destruct (has_attr_getitem _ _ Hv) as [v Hgv].
  unfold node_tag. rewrite Hgk, Hgv. cbn [bind].
  destruct (found problem_chars k); [eexists; reflexivity|].
  destruct (found arabic_chars k); [eexists; reflexivity|].
  destruct (tag_value_returns k v) as [value Hval]. rewrite Hval. cbn [bind].
  destruct (found LOWER_COLON k) eqn:Hlc; [|eexists; reflexivity].
  destruct (unpack2_returns k Hlc) as [tk ->]. eexists; reflexivity.
Qed.

Lemma way_tag_returns (element tg : Element)
    (problem_chars arabic_chars : regex) (default_tag_type : string) :
  has_attr "k" tg = true -> has_attr "v" tg = true ->
  exists row,
    way_tag element tg problem_chars arabic_chars default_tag_type = Ok row.
Proof.
  intros Hk Hv.
  destruct (has_attr_getitem _ _ Hk) as [k Hgk].
  destruct (has_attr_getitem _ _ Hv) as [v Hgv].
  unfold way_tag. rewrite Hgk, Hgv. cbn [bind].
  destruct (found PROBLEMCHARS k); [eexists; reflexivity|].
  destruct (found arabic_chars k); [eexists; reflexivity|].
  destruct (tag_value_returns k v) as [value Hval]. rewrite Hval. cbn [bind].
  destruct (found LOWER_COLON k) eqn:Hlc; [|eexists; reflexivity].
  destruct (unpack2_returns k Hlc) as [tk ->]. eexists; reflexivity.
Qed.

Lemma tag_loop_returns (body : Element -> result (option tag_row))
    (tags : list Element) :
  (forall tg, In tg tags -> exists row, body tg = Ok row) ->
  exists rows, tag_loop body tags = Ok rows.
Proof.
  induction tags as [|tg tags IH]; intros H; cbn [tag_loop].
  - eexists; reflexivity.
  - destruct (H tg (or_introl eq_refl)) as [row ->]. cbn [bind].
    destruct IH as [rows ->]; [intros t Ht; apply H; right; exact Ht|].
    cbn [bind]. eexists; reflexivity.
Qed.

(** ** The pattern of the city names *)

(** [^[a-z|A-Z]+.] is found exactly in the strings whose first character is
    a letter or a bar and whose second character is there and is no
    newline. *)
Lemma found_regex_english (v : string) :
  found regex_english v
  = match v with
    | String c1 (String c2 _) =>
        class_mem [Range "a" "z"; One "|"; Range "A" "Z"] c1
        && negb (Ascii.eqb c2 (chr 10))
    | _ => false
    end.
Proof.
  unfold regex_english. cbn [seqs]. rewrite found_bol.
  cbn [exec plus after]. destruct v as [|c1 [|c2 rest]].
  - reflexivity.
  - cbn [String.length rep_loop]. unfold one. cbn [after advance].
    destruct (class_mem _ c1); reflexivity.
  - cbn [String.length rep_loop pred]. unfold one. cbn [after advance].
    destruct (class_mem _ c1); cbn [andb]; [|reflexivity].
    destruct (Ascii.eqb_spec c2 (chr 10)) as [->|_]; cbn [negb].
    + reflexivity.
    + destruct (class_mem _ c2); [|reflexivity].
      destruct (rep_loop _ _ _ _ _); reflexivity.
Qed.

(** What [clean_city_name] does with the inputs of two characters or more
    that start with a letter: junk literals are nulled, the others are
    returned with their words capitalized. *)
Lemma clean_city_name_english (c1 c2 : ascii) (rest : string)
    (M : dict) (expected : list string) :
  let v := String c1 (String c2 rest) in
  is_alpha c1 = true ->
  c2 <> chr 10 ->
  fst (is_expected_city (Init v M expected)) = false ->
  str_in v (keys M) = false ->
  clean_city_name (Init v M expected)
  = Ok (if str_in v wrong_entry then "None" else capwords v).
Proof.
  intros v Hc1 Hc2 Hcity Hkey. unfold clean_city_name.
  rewrite Hcity. cbn [dirty_value mapping]. rewrite Hkey.
  rewrite found_regex_english. unfold v at 1.
  assert (Hcls : class_mem [Range "a" "z"; One "|"; Range "A" "Z"] c1 = true).
  { unfold class_mem. cbn [existsb citem_mem].
    change (between (nat_of_ascii "a") (nat_of_ascii "z") c1) with (is_lower c1).
    change (between (nat_of_ascii "A") (nat_of_ascii "Z") c1) with (is_upper c1).
    unfold is_alpha in Hc1. apply orb_prop in Hc1 as [-> | ->];
      rewrite ?orb_true_r; reflexivity. }
  rewrite Hcls. cbn [andb].
  destruct (Ascii.eqb_spec c2 (chr 10)) as [->|_]; [contradiction|].
  cbn [negb]. destruct (str_in v wrong_entry); reflexivity.
Qed.

(** ** The namespace split in the words of the specification *)







(* ===================================================================== *)
(** * Reshaping a record *)
(* ===================================================================== *)

Lemma shape_element_returns (element : Element)
    (node_attr_fields way_attr_fields : list string)
    (problem_chars arabic_chars : regex) (default_tag_type : string) :
  well_formed element = true ->
  exists sh,
    shape_element element node_attr_fields way_attr_fields problem_chars
                  arabic_chars default_tag_type = Ok sh.
Proof.
  unfold well_formed. intros H. apply andb_prop in H as [Hnd Htag].
  rewrite forallb_forall in Htag.
  assert (Hkv : forall tg, In tg (iter element "tag") ->
                has_attr "k" tg = true /\ has_attr "v" tg = true).
  { intros tg Hin. apply andb_prop, Htag, Hin. }
  unfold shape_element.
  destruct (String.eqb (tag element) "node").
  - destruct (tag_loop_returns
                (fun tg => node_tag element tg problem_chars arabic_chars
                                    default_tag_type)
                (iter element "tag")) as [rows ->].
    { intros tg Hin. destruct (Hkv tg Hin). apply node_tag_returns; assumption. }
    eexists; reflexivity.
  - destruct (String.eqb (tag element) "way"); [|eexists; reflexivity].
    assert (Hloop : forall nds i,
              forallb (has_attr "ref") nds = true ->
              exists rows, nd_loop element nds i = Ok rows).
    { induction nds as [|nd nds IH]; intros i Hall; cbn [nd_loop].
      - eexists; reflexivity.
      - cbn [forallb] in Hall. apply andb_prop in Hall as [Hr Hall].
        destruct (has_attr_getitem _ _ Hr) as [ref ->]. cbn [bind].
        destruct (IH (S i) Hall) as [rows ->]. eexists; reflexivity. }
    destruct (Hloop _ 0 Hnd) as [nodes ->]. cbn [bind].
    destruct (tag_loop_returns
                (fun tg => way_tag element tg problem_chars arabic_chars
                                   default_tag_type)
                (iter element "tag")) as [rows ->].
    { intros tg Hin. destruct (Hkv tg Hin). apply way_tag_returns; assumption. }
    eexists; reflexivity.
Qed.

(** C9. For every value string, with a mapping whose keys compile and
    whose values are plain strings, and any canonical list: [clean_value],
    [set_to_none], [clean_street_name] and [clean_city_name] return a string
    and raise nothing; a sub-tag with that value and any key is reshaped, in
    both branches, into a row or skipped, and a record whose sub-tags and
    member references carry their attributes is reshaped into a result. *)
Theorem cleaning_and_reshaping_return
    (v : string) (M : dict) (expected : list string) :
  wf_mapping M = true ->
  (exists o, clean_value (Init v M expected) = Ok o)
  /\ set_to_none (Init v M expected) = "None"
  /\ (exists o, clean_street_name (Init v M expected) = Ok o)
  /\ (exists o, clean_city_name (Init v M expected) = Ok o)
  /\ (forall element tg problem_chars arabic_chars default_tag_type k,
        lookup (attrib tg) "k" = Some k ->
        lookup (attrib tg) "v" = Some v ->
        (exists row, node_tag element tg problem_chars arabic_chars
                              default_tag_type = Ok row)
        /\ (exists row, way_tag element tg problem_chars arabic_chars
                                default_tag_type = Ok row))
  /\ (forall element node_attr_fields way_attr_fields problem_chars
             arabic_chars default_tag_type,
        well_formed element = true ->
        exists sh,
          shape_element element node_attr_fields way_attr_fields problem_chars
                        arabic_chars default_tag_type = Ok sh).
Proof.
  intros Hwf.
  split; [apply clean_value_returns|].
  split; [reflexivity|].
  split; [apply clean_street_name_returns; exact Hwf|].
  split; [apply clean_city_name_returns|].
  split.
  - intros element tg pc ac dtt k Hk Hv.
    assert (Hak : has_attr "k" tg = true)
      by (unfold has_attr, get; rewrite Hk; reflexivity).
    assert (Hav : has_attr "v" tg = true)
      by (unfold has_attr, get; rewrite Hv; reflexivity).
    split; [apply node_tag_returns | apply way_tag_returns]; assumption.
  - intros. apply shape_element_returns. assumption.
Qed.

Lemma cleaning_and_reshaping_return_witness :
  exists o,
    clean_street_name
      (Init "12th-13TH road, 1st(2nd) Rd." mapping_street_name
            expected_street_name) = Ok o.
Proof.
  apply (cleaning_and_reshaping_return
           "12th-13TH road, 1st(2nd) Rd." mapping_street_name
           expected_street_name).
  reflexivity.
Defined.

(** The loop over the member references numbers them from its counter
    on, in their order. *)
Lemma nd_loop_positions (element : Element) (nds : list Element) (i : nat) :
  forallb (has_attr "ref") nds = true ->
  exists rows,
    nd_loop element nds i = Ok rows
    /\ map position rows = seq i (List.length nds)
    /\ map (fun r => Some (node_id r)) rows = map (fun nd => get nd "ref") nds
    /\ Forall (fun r => nd_id r = get element "id") rows.
Proof.
  revert i. induction nds as [|nd nds IH]; intros i Hall; cbn [nd_loop].
  - exists []. repeat split. constructor.
  - cbn [forallb] in Hall. apply andb_prop in Hall as [Hr Hall].
    unfold has_attr in Hr. unfold getitem. fold (get nd "ref").
    destruct (get nd "ref") as [ref|] eqn:Href; [|discriminate].
    cbn [bind].
    destruct (IH (S i) Hall) as (rows & -> & Hpos & Hids & Hown).
    cbn [bind]. eexists. split; [reflexivity|].
    cbn [map position node_id List.length seq].
    rewrite Hpos, Hids, Href. repeat split.
    constructor; [reflexivity | exact Hown].
Qed.

(** C6. Take a stream of records in any order of processing and a way
    record of it whose member references and sub-tags carry their
    attributes.  Its member rows are emitted, they carry the positions
    [0 .. n-1] for its [n] member references, in the order the references
    have in the record, each with the referenced id and the id of the
    record. *)
Theorem way_nodes_positions (es es' : list Element) (e : Element) :
  Permutation es es' ->
  In e es ->
  tag e = "way" ->
  well_formed e = true ->
  exists way nodes tags,
    In (e, Ok (Some (WayShape way nodes tags))) (shape_stream es')
    /\ map position nodes = seq 0 (List.length (iter e "nd"))
    /\ map (fun r => Some (node_id r)) nodes
       = map (fun nd => get nd "ref") (iter e "nd")
    /\ Forall (fun r => nd_id r = get e "id") nodes.
Proof.
  intros HP Hin Htag Hwf.
  unfold well_formed in Hwf. apply andb_prop in Hwf as [Hnd Htags].
  destruct (nd_loop_positions e (iter e "nd") 0 Hnd)
    as (nodes & Hloop & Hpos & Hids & Hown).
  destruct (tag_loop_returns
              (fun tg => way_tag e tg PROBLEMCHARS ARABICKEY "regular")
              (iter e "tag")) as [rows Hrows].
  { intros tg Htg. rewrite forallb_forall in Htags.
    destruct (andb_prop _ _ (Htags tg Htg)).
    apply way_tag_returns; assumption. }
  exists (map (fun f => (f, get e f)) WAY_FIELDS), nodes, rows.
  split; [|repeat split; assumption].
  unfold shape_stream. apply in_map_iff. exists e. split.
  - unfold shape, shape_element. rewrite Htag. cbn [String.eqb Ascii.eqb Bool.eqb].
    rewrite Hloop. cbn [bind]. rewrite Hrows. reflexivity.
  - eapply Permutation_in; eassumption.
Qed.

Lemma way_nodes_positions_witness :
  exists way nodes tags,
    In (Elem "way" [("id", "7")]
          [Elem "nd" [("ref", "10")] []; Elem "tag" [("k", "oneway"); ("v", "yes")] [];
           Elem "nd" [("ref", "20")] []],
        Ok (Some (WayShape way nodes tags)))
       (shape_stream
          [Elem "node" [("id", "10")] [];
           Elem "way" [("id", "7")]
             [Elem "nd" [("ref", "10")] [];
              Elem "tag" [("k", "oneway"); ("v", "yes")] [];
              Elem "nd" [("ref", "20")] []]])
    /\ map position nodes = [0; 1]
    /\ map (fun r => Some (node_id r)) nodes = [Some "10"; Some "20"]
    /\ Forall (fun r => nd_id r = Some "7") nodes.
Proof.
  apply (way_nodes_positions
           [Elem "way" [("id", "7")]
              [Elem "nd" [("ref", "10")] [];
               Elem "tag" [("k", "oneway"); ("v", "yes")] [];
               Elem "nd" [("ref", "20")] []];
            Elem "node" [("id", "10")] []]).
  - apply perm_swap.
  - left. reflexivity.
  - reflexivity.
  - reflexivity.
Defined.

(** With the default exclusion pattern the two branches build the same
    row. *)
Lemma tag_rows_agree_default (element tg : Element) (arabic_chars : regex)
    (default_tag_type : string) :
  node_tag element tg PROBLEMCHARS arabic_chars default_tag_type
  = way_tag element tg PROBLEMCHARS arabic_chars default_tag_type.
Proof. reflexivity. Qed.

(** C10, at an exclusion pattern other than the default: for the same
    sub-tag and record the node branch emits a row and the way branch skips
    the sub-tag, because the way branch tests the module constant and not
    its argument. *)
Theorem tag_rows_differ :
  let problem_chars :=
    Class [One "="; One "+"; One "/"; One "&"; One "<"; One ">"; One ";"] in
  let element := Elem "way" [("id", "7")] [] in
  let tg := Elem "tag" [("k", "name.en"); ("v", "Dubai")] [] in
  node_tag element tg problem_chars ARABICKEY "regular"
    = Ok (Some (TagRow (Some "7") "name.en" "Dubai" "regular"))
  /\ way_tag element tg problem_chars ARABICKEY "regular" = Ok None.
Proof. split; vm_compute; reflexivity. Qed.

(* ===================================================================== *)
(** * Further properties of the street-name steps *)
(* ===================================================================== *)

Import Notions.

Lemma str_app_assoc (a b c : string) :
  ((a ++ b) ++ c)%string = (a ++ (b ++ c))%string.
Proof. induction a as [|x a IH]; cbn; [reflexivity | rewrite IH; reflexivity]. Qed.

Lemma str_app_nil_r (a : string) : (a ++ "")%string = a.
Proof. induction a as [|x a IH]; cbn; [reflexivity | rewrite IH; reflexivity]. Qed.

Lemma some_char_app (p : ascii -> bool) (a b : string) :
  some_char p (a ++ b) = some_char p a || some_char p b.
Proof.
  induction a as [|x a IH]; cbn; [reflexivity|].
  rewrite IH, orb_assoc. reflexivity.
Qed.

(** X1. When no key of the mapping occurs in the value,
    [update_street_name] returns the value as it is, whatever the keys and
    the replacement strings look like. *)
Theorem update_street_name_without_keys (self : cleanOSM) :
  forallb (fun k => negb (contains k (dirty_value self))) (keys (mapping self))
    = true ->
  update_street_name self = Ok (dirty_value self).
Proof. intros H. apply update_loop_no_key, H. Qed.

Lemma update_street_name_without_keys_witness :
  update_street_name
    (Init "Al Wasl Road" mapping_street_name expected_street_name)
  = Ok "Al Wasl Road".
Proof.
  apply (update_street_name_without_keys
           (Init "Al Wasl Road" mapping_street_name expected_street_name)).
  reflexivity.
Defined.

(** X2. What [update_street_name] returns is the dirty value itself or the
    dirty value with the occurrences of one single key replaced: the
    substitutions of several keys never add up. *)
Theorem update_street_name_one_substitution (self : cleanOSM) (out : string) :
  update_street_name self = Ok out ->
  out = dirty_value self
  \/ exists k rx v,
       In k (keys (mapping self)) /\ key_regex k = Ok rx
       /\ getitem (mapping self) k = Ok v
       /\ sub rx (fun _ => Ok v) (dirty_value self) = Ok out.
Proof. intros H. apply update_loop_single in H. exact H. Qed.

Lemma update_street_name_one_substitution_witness :
  "Sibaytah Street" = "Sibaytah St"
  \/ exists k rx v,
       In k (keys mapping_street_name) /\ key_regex k = Ok rx
       /\ getitem mapping_street_name k = Ok v
       /\ sub rx (fun _ => Ok v) "Sibaytah St" = Ok "Sibaytah Street".
Proof.
  apply (update_street_name_one_substitution
           (Init "Sibaytah St" mapping_street_name expected_street_name)
           "Sibaytah Street").
  vm_compute. reflexivity.
Defined.

(** ** Patterns that need a digit *)

Lemma class_digits (items : list citem) (c : ascii) :
  forallb (fun i => match i with Digit => true | _ => false end) items = true ->
  class_mem items c = true -> is_digit c = true.
Proof.
  unfold class_mem. induction items as [|i items IH]; cbn [forallb existsb].
  - discriminate.
  - intros Hall Hmem. apply andb_prop in Hall as [Hi Hall].
    apply orb_prop in Hmem as [Hmem|Hmem]; [|apply IH; assumption].
    destruct i; try discriminate. exact Hmem.
Qed.

Lemma one_moves_on (p : ascii -> bool) (flag : bool) :
  (flag = true -> forall c, p c = true -> is_digit c = true) ->
  moves_on flag (one p).
Proof.
  intros Hp st k res H. unfold one in H.
  destruct (after st) as [|c rest] eqn:Ha; [discriminate|].
  destruct (p c) eqn:Hc; [|discriminate].
  exists (advance c rest st), (String c ""). split; [exact H|]. split.
  - reflexivity.
  - intros Hf. cbn. rewrite (Hp Hf c Hc). reflexivity.
Qed.

Lemma stay_moves_on (st : mstate) (k : mstate -> option mstate)
    (res : mstate) :
  k st = Some res ->
  exists st' pre,
    k st' = Some res /\ after st = (pre ++ after st')%string
    /\ (false = true -> has_digit pre = true).
Proof.
  intros H. exists st, "". split; [exact H|]. split; [reflexivity|].
  discriminate.
Qed.

Lemma rep_loop_moves_on
    (body : mstate -> (mstate -> option mstate) -> option mstate)
    (flag : bool) (k : mstate -> option mstate) :
  moves_on flag body ->
  forall n lo st res,
    rep_loop body k n lo st = Some res ->
    exists st' pre,
      k st' = Some res /\ after st = (pre ++ after st')%string
      /\ (lo <> 0 -> flag = true -> has_digit pre = true).
Proof.
  intros Hbody. induction n as [|n IH]; intros lo st res H; cbn [rep_loop] in H.
  - destruct lo; [|discriminate].
    exists st, "". split; [exact H|]. split; [reflexivity|].
    intros Hlo; contradiction.
  - destruct (body st (fun st1 => rep_loop body k n (pred lo) st1))
      as [res0|] eqn:Hb.
    + injection H as ->.
      apply Hbody in Hb as (st1 & pre1 & Hrest & Ha1 & Hd1).
      apply IH in Hrest as (st' & pre2 & Hk & Ha2 & _).
      exists st', (pre1 ++ pre2)%string. split; [exact Hk|]. split.
      * rewrite Ha1, Ha2, str_app_assoc. reflexivity.
      * intros _ Hf. unfold has_digit. rewrite some_char_app.
        unfold has_digit in Hd1. rewrite (Hd1 Hf). reflexivity.
    + destruct lo; [|discriminate].
      exists st, "". split; [exact H|]. split; [reflexivity|].
      intros Hlo; contradiction.
Qed.

(** A successful match leaves a suffix of the text, and has passed a digit
    when the pattern needs one. *)
Lemma exec_moves_on (r : regex) : moves_on (needs_digit r) (exec r).
Proof.
  induction r as [| c | | items | r1 IH1 r2 IH2 | r1 IH1 r2 IH2
                  | r1 IH1 lo hi | g r1 IH1 | | | | w r1 IH1 | r1 IH1];
    intros st k res H; cbn [exec needs_digit] in *.
  - apply stay_moves_on, H.
  - revert H. apply one_moves_on. discriminate.
  - revert H. apply one_moves_on. discriminate.
  - revert H. apply one_moves_on. intros Hf c. apply class_digits, Hf.
  - apply IH1 in H as (st1 & pre1 & H2 & Ha1 & Hd1).
    apply IH2 in H2 as (st' & pre2 & Hk & Ha2 & Hd2).
    exists st', (pre1 ++ pre2)%string. split; [exact Hk|]. split.
    + rewrite Ha1, Ha2, str_app_assoc. reflexivity.
    + intros Hf. unfold has_digit in *. rewrite some_char_app.
      apply orb_prop in Hf as [Hf|Hf].
      * rewrite (Hd1 Hf). reflexivity.
      * rewrite (Hd2 Hf). apply orb_true_r.
  - destruct (exec r1 st k) as [res1|] eqn:H1.
    + injection H as ->.
      apply IH1 in H1 as (st' & pre & Hk & Ha & Hd).
      exists st', pre. split; [exact Hk|]. split; [exact Ha|].
      intros Hf. apply andb_prop in Hf as [Hf _]. apply Hd, Hf.
    + apply IH2 in H as (st' & pre & Hk & Ha & Hd).
      exists st', pre. split; [exact Hk|]. split; [exact Ha|].
      intros Hf. apply andb_prop in Hf as [_ Hf]. apply Hd, Hf.
  - apply (rep_loop_moves_on _ _ _ IH1) in H as (st' & pre & Hk & Ha & Hd).
    exists st', pre. split; [exact Hk|]. split; [exact Ha|].
    intros Hf. destruct lo; [discriminate|]. apply Hd; [discriminate | exact Hf].
  - apply IH1 in H as (st1 & pre & Hk & Ha & Hd).
    exists (MS (before st1) (after st1) ((g, consumed st st1) :: caps st1)), pre.
    split; [exact Hk|]. split; [exact Ha | exact Hd].
  - destruct (before st); [|discriminate]. apply stay_moves_on, H.
  - destruct (at_eol st); [|discriminate]. apply stay_moves_on, H.
  - destruct (at_word_boundary st); [|discriminate]. apply stay_moves_on, H.
  - apply stay_moves_on.
    destruct (step_back w (before st) (after st)) as [[bef aft]|]; [|exact H].
    destruct (exec r1 (MS bef aft (caps st)) Some); [discriminate | exact H].
  - apply stay_moves_on.
    destruct (exec r1 st Some); [discriminate | exact H].
Qed.

Lemma search_from_no_digit (r : regex) (s : string) (pre : list ascii) :
  needs_digit r = true -> has_digit s = false -> search_from r pre s = None.
Proof.
  intros Hr. revert pre. induction s as [|c s IH]; intros pre Hs;
    cbn [search_from]; unfold match_at.
  - destruct (exec r (MS pre "" []) Some) as [st|] eqn:He; [|reflexivity].
    apply exec_moves_on in He as (st' & p & _ & Ha & Hd).
    cbn [after] in Ha. specialize (Hd Hr).
    destruct p; [discriminate Hd | discriminate Ha].
  - destruct (exec r (MS pre (String c s) []) Some) as [st|] eqn:He.
    + apply exec_moves_on in He as (st' & p & _ & Ha & Hd).
      cbn [after] in Ha. specialize (Hd Hr).
      assert (Hw : has_digit (p ++ after st') = true).
      { unfold has_digit in *. rewrite some_char_app, Hd. reflexivity. }
      rewrite <- Ha, Hs in Hw. discriminate.
    + apply IH. unfold has_digit in *. cbn [some_char] in Hs.
      apply orb_false_elim in Hs as [_ Hs]. exact Hs.
Qed.

Lemma found_no_digit (r : regex) (s : string) :
  needs_digit r = true -> has_digit s = false -> found r s = false.
Proof.
  intros Hr Hs. unfold found, search.
  rewrite (search_from_no_digit r s [] Hr Hs). reflexivity.
Qed.

(** X3. The six steps that rewrite street numbers leave a name without
    digits as it is. *)
Theorem number_steps_without_digits (name : string) :
  has_digit name = false ->
  remove_brackets name = Ok name
  /\ street_letter_to_uppercase_and_removegap name = Ok name
  /\ switch_digit_position name = Ok name
  /\ remove_hypen_space_and_switch name = Ok name
  /\ put_number_after_street name = Ok name
  /\ add_street_prefix name = Ok name.
Proof.
  intros H.
  unfold remove_brackets, street_letter_to_uppercase_and_removegap,
    switch_digit_position, remove_hypen_space_and_switch,
    put_number_after_street, add_street_prefix.
  rewrite !found_no_digit by (reflexivity || exact H).
  repeat split.
Qed.

Lemma number_steps_without_digits_witness :
  remove_brackets "Al Wasl Road" = Ok "Al Wasl Road"
  /\ street_letter_to_uppercase_and_removegap "Al Wasl Road" = Ok "Al Wasl Road"
  /\ switch_digit_position "Al Wasl Road" = Ok "Al Wasl Road"
  /\ remove_hypen_space_and_switch "Al Wasl Road" = Ok "Al Wasl Road"
  /\ put_number_after_street "Al Wasl Road" = Ok "Al Wasl Road"
  /\ add_street_prefix "Al Wasl Road" = Ok "Al Wasl Road".
Proof.
  apply (number_steps_without_digits "Al Wasl Road"). reflexivity.
Defined.

(** ** Digits and [capwords] *)

Lemma is_digit_upper_char (c : ascii) : is_digit (upper_char c) = is_digit c.
Proof. destruct c as [[] [] [] [] [] [] [] []]; reflexivity. Qed.

Lemma is_digit_lower_char (c : ascii) : is_digit (lower_char c) = is_digit c.
Proof. destruct c as [[] [] [] [] [] [] [] []]; reflexivity. Qed.

Lemma space_not_digit (c : ascii) : is_space c = true -> is_digit c = false.
Proof.
  destruct c as [[] [] [] [] [] [] [] []]; intros H;
    solve [reflexivity | discriminate H].
Qed.

Lemma has_digit_map_str (f : ascii -> ascii) (s : string) :
  (forall c, is_digit (f c) = is_digit c) ->
  has_digit (map_str f s) = has_digit s.
Proof.
  intros Hf. unfold has_digit. induction s as [|c s IH]; cbn; [reflexivity|].
  rewrite Hf, IH. reflexivity.
Qed.

Lemma has_digit_capitalize (w : string) : has_digit (capitalize w) = has_digit w.
Proof.
  destruct w as [|c w]; [reflexivity|].
  unfold capitalize, has_digit. cbn [some_char].
  rewrite is_digit_upper_char.
  change (some_char is_digit (lower w)) with (has_digit (map_str lower_char w)).
  rewrite (has_digit_map_str _ _ is_digit_lower_char). reflexivity.
Qed.

Lemma some_char_rev_str (p : ascii -> bool) (s acc : string) :
  some_char p (rev_str acc s) = some_char p acc || some_char p s.
Proof.
  revert acc. induction s as [|c s IH]; intros acc; cbn [rev_str some_char].
  - rewrite orb_false_r. reflexivity.
  - rewrite IH. cbn [some_char].
    destruct (p c), (some_char p acc), (some_char p s); reflexivity.
Qed.

Lemma has_digit_split_ws_aux (s cur : string) :
  existsb has_digit (split_ws_aux cur s) = has_digit cur || has_digit s.
Proof.
  unfold has_digit. revert cur.
  induction s as [|c s IH]; intros cur; cbn [split_ws_aux].
  - destruct cur as [|x cur]; [reflexivity|].
    cbn [existsb]. rewrite some_char_rev_str. cbn [some_char].
    rewrite !orb_false_r. reflexivity.
  - destruct (is_space c) eqn:Hc.
    + apply space_not_digit in Hc. cbn [some_char]. rewrite Hc. cbn [orb].
      destruct cur as [|x cur].
      * rewrite IH. reflexivity.
      * cbn [existsb]. rewrite IH, some_char_rev_str. cbn [some_char].
        reflexivity.
    + rewrite IH. cbn [some_char].
      destruct (is_digit c), (some_char is_digit cur), (some_char is_digit s);
        reflexivity.
Qed.

Lemma has_digit_join_space (l : list string) :
  has_digit (join " " l) = existsb has_digit l.
Proof.
  unfold has_digit. induction l as [|p l IH]; [reflexivity|].
  destruct l as [|q l].
  - cbn. rewrite orb_false_r. reflexivity.
  - change (join " " (p :: q :: l)) with (p ++ " " ++ join " " (q :: l))%string.
    rewrite !some_char_app, IH. reflexivity.
Qed.

Lemma has_digit_capwords (s : string) : has_digit (capwords s) = has_digit s.
Proof.
  unfold capwords. rewrite has_digit_join_space.
  transitivity (existsb has_digit (split_ws s)).
  - induction (split_ws s) as [|w l IH]; [reflexivity|].
    cbn [map existsb]. rewrite has_digit_capitalize, IH. reflexivity.
  - unfold split_ws. rewrite has_digit_split_ws_aux. reflexivity.
Qed.

(** X4. A street value whose first step leaves no digit only has its
    words capitalized: it is nulled when the capitalized value holds no
    canonical word, and otherwise [extract_street] is applied to the
    capitalized value. *)
Theorem clean_street_name_without_digits (self : cleanOSM) (u : string) :
  update_street_name self = Ok u ->
  has_digit u = false ->
  clean_street_name self
  = Ok (let name := remove_non_street_values self (capwords u) in
        if String.eqb name "None" then name else extract_street self name).
Proof.
  intros Hu Hd. unfold clean_street_name. rewrite Hu. cbn [bind].
  assert (Hc : has_digit (capwords u) = false)
    by (rewrite has_digit_capwords; exact Hd).
  destruct (number_steps_without_digits _ Hc)
    as (H1 & H2 & H3 & H4 & H5 & H6).
  rewrite H1. cbn [bind]. rewrite H2. cbn [bind]. rewrite H3. cbn [bind].
  rewrite H4. cbn [bind]. rewrite H5. cbn [bind]. rewrite H6. cbn [bind].
  destruct (String.eqb _ "None"); reflexivity.
Qed.

Lemma clean_street_name_without_digits_witness :
  clean_street_name
    (Init "sheikh zayed road, dubai" mapping_street_name expected_street_name)
  = Ok "Sheikh Zayed Road".
Proof.
  apply (clean_street_name_without_digits
           (Init "sheikh zayed road, dubai" mapping_street_name
                 expected_street_name)
           "sheikh zayed Road, dubai").
  - reflexivity.
  - reflexivity.
Defined.

(** ** The last two steps *)

Lemma bind_Ok {A B : Type} (x : result A) (f : A -> result B) (b : B) :
  bind x f = Ok b -> exists a, x = Ok a /\ f a = Ok b.
Proof.
  destruct x as [a|e]; cbn; [|discriminate].
  intros H. exists a. split; [reflexivity | exact H].
Qed.

Lemma extract_loop_keeps (self : cleanOSM) (chars : list ascii) (name : string) :
  any_expected_in self name = true ->
  any_expected_in self (extract_loop self chars name) = true.
Proof.
  intros H. induction chars as [|c chars IH]; cbn [extract_loop]; [exact H|].
  destruct (has_char c name); [|exact IH].
  destruct (find (any_expected_in self) (split_char c name)) as [part|] eqn:Hf;
    [|exact IH].
  apply find_some in Hf as [_ Hp]. exact Hp.
Qed.

(** X5. What [clean_street_name] returns is the null-marker or a value
    that holds a word of the canonical list. *)
Theorem clean_street_name_null_or_canonical (self : cleanOSM) (out : string) :
  clean_street_name self = Ok out ->
  out = "None" \/ any_expected_in self out = true.
Proof.
  unfold clean_street_name. intros H.
  repeat (apply bind_Ok in H as (? & _ & H)).
  unfold remove_non_street_values in H.
  destruct (any_expected_in self x5) eqn:Hany.
  - destruct (String.eqb_spec x5 "None") as [->|_]; cbn [negb] in H;
      injection H as <-.
    + left; reflexivity.
    + right. apply extract_loop_keeps, Hany.
  - cbn in H. injection H as <-. left; reflexivity.
Qed.

Lemma clean_street_name_null_or_canonical_witness :
  "Street 11E" = "None"
  \/ any_expected_in (Init "E11" mapping_street_name expected_street_name)
       "Street 11E" = true.
Proof.
  apply (clean_street_name_null_or_canonical
           (Init "E11" mapping_street_name expected_street_name) "Street 11E").
  vm_compute. reflexivity.
Defined.

(** X6. Without a canonical list (the default of the constructor) the
    street cleaner nulls every value. *)
Theorem clean_street_name_without_canonical_list (v : string) (M : dict) :
  wf_mapping M = true ->
  clean_street_name (Init v M []) = Ok "None".
Proof.
  intros Hwf.
  destruct (clean_street_name_returns (Init v M []) Hwf) as [out Hout].
  rewrite Hout. f_equal.
  destruct (clean_street_name_null_or_canonical _ _ Hout) as [H|H];
    [exact H | discriminate H].
Qed.

Lemma clean_street_name_without_canonical_list_witness :
  clean_street_name (Init "Sibaytah St" mapping_street_name []) = Ok "None".
Proof.
  apply (clean_street_name_without_canonical_list "Sibaytah St"
           mapping_street_name).
  reflexivity.
Defined.

(** ** The segments of [extract_street] *)

Lemma prefix_refl (s : string) : String.prefix s s = true.
Proof.
  induction s as [|c s IH]; cbn; [reflexivity|].
  destruct (ascii_dec c c) as [_|Hne]; [exact IH | contradiction Hne; reflexivity].
Qed.

Lemma contains_refl (s : string) : contains s s = true.
Proof. destruct s; cbn [contains]; rewrite prefix_refl; reflexivity. Qed.

Lemma contains_tail (sub : string) (c : ascii) (s : string) :
  contains sub s = true -> contains sub (String c s) = true.
Proof.
  intros H. cbn [contains]. destruct (String.prefix sub (String c s));
    [reflexivity | exact H].
Qed.

Lemma prefix_contains (sub s : string) :
  String.prefix sub s = true -> contains sub s = true.
Proof. intros H. destruct s; cbn [contains]; rewrite H; reflexivity. Qed.

Lemma split_char_cons (c : ascii) (s : string) :
  exists p ps, split_char c s = p :: ps /\ String.prefix p s = true.
Proof.
  induction s as [|a s (p & ps & Hs & Hp)]; cbn [split_char].
  - exists "", []. split; reflexivity.
  - destruct (Ascii.eqb a c).
    + exists "", (split_char c s). split; reflexivity.
    + rewrite Hs. exists (String a p), ps. split; [reflexivity|].
      cbn. destruct (ascii_dec a a) as [_|Hne];
        [exact Hp | contradiction Hne; reflexivity].
Qed.

Lemma split_char_contains (c : ascii) (s part : string) :
  In part (split_char c s) -> contains part s = true.
Proof.
  revert part. induction s as [|a s IH]; intros part; cbn [split_char].
  - intros [<-|[]]. reflexivity.
  - destruct (Ascii.eqb a c).
    + intros [<-|Hin]; [reflexivity|]. apply contains_tail, IH, Hin.
    + destruct (split_char_cons c s) as (p & ps & Hs & Hp).
      rewrite Hs in *. intros [<-|Hin].
      * apply prefix_contains. cbn.
        destruct (ascii_dec a a) as [_|Hne];
          [exact Hp | contradiction Hne; reflexivity].
      * apply contains_tail, IH. right. exact Hin.
Qed.

(** X7. [extract_street] returns a piece of its argument.  Without a
    hyphen and a comma the value is returned as it is; otherwise the result
    is the value or a segment between hyphens or between commas that holds a
    canonical word, and the hyphen comes first: when the value has a hyphen,
    the first segment between hyphens that holds a canonical word is the
    result, commas or not. *)
Theorem extract_street_piece (self : cleanOSM) (name : string) :
  contains (extract_street self name) name = true
  /\ (has_char "-" name = false -> has_char "," name = false ->
      extract_street self name = name)
  /\ (extract_street self name = name
      \/ (any_expected_in self (extract_street self name) = true
          /\ (In (extract_street self name) (split_char "-" name)
              \/ In (extract_street self name) (split_char "," name))))
  /\ (forall part,
        has_char "-" name = true ->
        find (any_expected_in self) (split_char "-" name) = Some part ->
        extract_street self name = part).
Proof.
  unfold extract_street. cbn [extract_loop].
  destruct (has_char "-" name) eqn:Hh;
    [destruct (find (any_expected_in self) (split_char "-" name))
       as [p1|] eqn:F1|];
    (destruct (has_char "," name) eqn:Hc;
     [destruct (find (any_expected_in self) (split_char "," name))
        as [p2|] eqn:F2|]);
    repeat match goal with
           | H : find _ _ = Some _ |- _ => apply find_some in H as [? ?]
           end;
    repeat split;
    try (intros; discriminate);
    try (intros ? _ [= <-]; reflexivity);
    try (apply contains_refl);
    try (eapply split_char_contains; eassumption);
    try (left; reflexivity);
    try (right; split; [assumption | first [left; assumption | right; assumption]]).
Qed.

Lemma extract_street_piece_witness :
  extract_street (Init "" [] expected_street_name) "Al Wasl Road, Jumeirah - 2"
  = "Al Wasl Road, Jumeirah ".
Proof.
  apply (proj2 (proj2 (proj2
           (extract_street_piece (Init "" [] expected_street_name)
              "Al Wasl Road, Jumeirah - 2")))).
  - reflexivity.
  - reflexivity.
Defined.

(* ===================================================================== *)
(** * Further properties of the city names and of the generic
      substitution *)
(* ===================================================================== *)

(** X8. What [clean_city_name] returns is a name of the canonical list,
    the value the mapping gives for the input, the null-marker, or the input
    with its words capitalized. *)
Theorem clean_city_name_range (self : cleanOSM) :
  exists out,
    clean_city_name self = Ok out
    /\ (In out (expected_values self)
        \/ lookup (mapping self) (dirty_value self) = Some out
        \/ out = "None"
        \/ out = capwords (dirty_value self)).
Proof.
  unfold clean_city_name, is_expected_city.
  destruct (find _ (expected_values self)) as [c|] eqn:Hf; cbn [fst snd].
  - exists c. split; [reflexivity|]. left. apply find_some in Hf as [Hin _].
    exact Hin.
  - rewrite str_in_keys_lookup. unfold clean_value, getitem.
    rewrite str_in_keys_lookup.
    destruct (lookup (mapping self) (dirty_value self)) as [x|].
    + exists x. split; [reflexivity|]. right; left; reflexivity.
    + destruct (found regex_english (dirty_value self)).
      * destruct (str_in (dirty_value self) wrong_entry).
        -- exists "None". split; [reflexivity|]. right; right; left; reflexivity.
        -- eexists. split; [reflexivity|]. right; right; right; reflexivity.
      * exists "None". split; [reflexivity|]. right; right; left; reflexivity.
Qed.

Lemma class_mem_english (c : ascii) :
  class_mem [Range "a" "z"; One "|"; Range "A" "Z"] c
  = is_alpha c || Ascii.eqb c "|".
Proof.
  unfold class_mem, is_alpha. cbn [existsb citem_mem].
  change (between (nat_of_ascii "a") (nat_of_ascii "z") c) with (is_lower c).
  change (between (nat_of_ascii "A") (nat_of_ascii "Z") c) with (is_upper c).
  destruct (is_lower c), (is_upper c), (Ascii.eqb c "|"); reflexivity.
Qed.

(** X9. An input that holds no canonical name and is no key of the mapping
    is returned with its words capitalized when it starts with a letter (or a
    bar) followed by another character that is no newline, and is none of
    the junk literals; every other such input (a number, text in another
    script, a single character, the empty string, a junk literal) is
    nulled. *)
Theorem clean_city_name_other (self : cleanOSM) :
  fst (is_expected_city self) = false ->
  str_in (dirty_value self) (keys (mapping self)) = false ->
  clean_city_name self
  = Ok (if starts_english (dirty_value self)
        then if str_in (dirty_value self) wrong_entry then "None"
             else capwords (dirty_value self)
        else "None").
Proof.
  intros Hcity Hkey. unfold clean_city_name. rewrite Hcity, Hkey.
  rewrite found_regex_english. unfold starts_english.
  destruct (dirty_value self) as [|c1 [|c2 rest]]; try reflexivity.
  rewrite class_mem_english.
  destruct ((is_alpha c1 || Ascii.eqb c1 "|") && negb (Ascii.eqb c2 (chr 10)));
    [|reflexivity].
  destruct (str_in _ wrong_entry); reflexivity.
Qed.

Lemma clean_city_name_other_witness :
  clean_city_name (Init "12 b" mapping_city expected_cities) = Ok "None".
Proof.
  apply (clean_city_name_other (Init "12 b" mapping_city expected_cities)).
  - reflexivity.
  - reflexivity.
Defined.

(** X10. When no value of the mapping is itself a key, [clean_value] is
    idempotent: cleaning its result again changes nothing. *)
Theorem clean_value_idempotent (v out : string) (M : dict)
    (canon : list string) :
  values_are_clean M = true ->
  clean_value (Init v M canon) = Ok out ->
  clean_value (Init out M canon) = Ok out.
Proof.
  unfold values_are_clean, clean_value, getitem. cbn [dirty_value mapping].
  rewrite forallb_forall. intros Hclean.
  rewrite !str_in_keys_lookup.
  destruct (lookup M v) as [x|] eqn:Hv.
  - intros [= <-]. apply lookup_In in Hv. specialize (Hclean _ Hv).
    cbn [snd] in Hclean. rewrite str_in_keys_lookup in Hclean.
    destruct (lookup M x); [discriminate | reflexivity].
  - intros [= <-]. rewrite Hv. reflexivity.
Qed.

Lemma clean_value_idempotent_witness :
  clean_value (Init "commercial" mapping_building []) = Ok "commercial".
Proof.
  apply (clean_value_idempotent "Offices" "commercial" mapping_building []).
  - reflexivity.
  - reflexivity.
Defined.

(** ** Bare street numbers *)

Lemma is_digit_In (c : ascii) : is_digit c = true -> In c digit_chars.
Proof.
  destruct c as [[] [] [] [] [] [] [] []]; intros H;
    solve [discriminate H | cbv; tauto].
Qed.

Lemma is_upper_In (c : ascii) : is_upper c = true -> In c upper_chars.
Proof.
  destruct c as [[] [] [] [] [] [] [] []]; intros H;
    solve [discriminate H | cbv; tauto].
Qed.

Lemma bare_number_In (s : string) : bare_number s = true -> In s bare_numbers.
Proof.
  unfold bare_number, bare_numbers.
  destruct s as [|a [|b [|c [|d s]]]]; try discriminate.
  - intros Ha. apply in_or_app. left.
    apply (in_map (fun x => String x "") digit_chars a), is_digit_In, Ha.
  - intros H. apply andb_prop in H as [Ha Hb].
    apply in_or_app. right. apply in_or_app. left.
    apply in_flat_map. exists a. split; [apply is_digit_In, Ha|].
    apply (in_map (fun x => String a (String x "")) _ b). apply in_or_app.
    apply orb_prop in Hb as [Hb|Hb];
      [left; apply is_digit_In, Hb | right; apply is_upper_In, Hb].
  - intros H. apply andb_prop in H as [H Hc]. apply andb_prop in H as [Ha Hb].
    apply in_or_app. right. apply in_or_app. right.
    apply in_flat_map. exists a. split; [apply is_digit_In, Ha|].
    apply in_flat_map. exists b. split; [apply is_digit_In, Hb|].
    apply (in_map (fun x => String a (String b (String x ""))) _ c),
      is_upper_In, Hc.
Qed.

Lemma bare_numbers_get_prefix : forallb gets_street_prefix bare_numbers = true.
Proof. vm_compute. reflexivity. Qed.

(** X11. With the mapping and the canonical list of the converter, a bare
    street number (one or two digits, with or without a capital letter after
    them) is cleaned into the street word, a space and the number. *)
Theorem clean_street_name_bare_number (s : string) :
  bare_number s = true ->
  clean_street_name (Init s mapping_street_name expected_street_name)
  = Ok ("Street " ++ s)%string.
Proof.
  intros H. apply bare_number_In in H.
  pose proof bare_numbers_get_prefix as Hall.
  rewrite forallb_forall in Hall. specialize (Hall s H).
  unfold gets_street_prefix in Hall.
  destruct (clean_street_name _) as [out|]; [|discriminate].
  apply String.eqb_eq in Hall. rewrite Hall. reflexivity.
Qed.

Lemma clean_street_name_bare_number_witness :
  clean_street_name (Init "17B" mapping_street_name expected_street_name)
  = Ok "Street 17B".
Proof.
  apply (clean_street_name_bare_number "17B"). reflexivity.
Defined.

(* ===================================================================== *)
(** * Further properties of the reshaping *)
(* ===================================================================== *)

Lemma node_tag_id (element tg : Element) (problem_chars arabic_chars : regex)
    (dtt : string) (row : tag_row) :
  node_tag element tg problem_chars arabic_chars dtt = Ok (Some row) ->
  t_id row = get element "id".
Proof.
  unfold node_tag. intros H.
  apply bind_Ok in H as (k & _ & H).
  destruct (found problem_chars k); [discriminate|].
  destruct (found arabic_chars k); [discriminate|].
  apply bind_Ok in H as (value & _ & H).
  destruct (found LOWER_COLON k).
  - apply bind_Ok in H as (tk & _ & H). injection H as <-. reflexivity.
  - injection H as <-. reflexivity.
Qed.

Lemma way_tag_id (element tg : Element) (problem_chars arabic_chars : regex)
    (dtt : string) (row : tag_row) :
  way_tag element tg problem_chars arabic_chars dtt = Ok (Some row) ->
  t_id row = get element "id".
Proof.
  unfold way_tag. intros H.
  apply bind_Ok in H as (k & _ & H).
  destruct (found PROBLEMCHARS k); [discriminate|].
  destruct (found arabic_chars k); [discriminate|].
  apply bind_Ok in H as (value & _ & H).
  destruct (found LOWER_COLON k).
  - apply bind_Ok in H as (tk & _ & H). injection H as <-. reflexivity.
  - injection H as <-. reflexivity.
Qed.

Lemma tag_loop_Forall (body : Element -> result (option tag_row))
    (P : tag_row -> Prop) (tags : list Element) (rows : list tag_row) :
  (forall tg row, body tg = Ok (Some row) -> P row) ->
  tag_loop body tags = Ok rows -> Forall P rows.
Proof.
  intros Hbody. revert rows.
  induction tags as [|tg tags IH]; intros rows; cbn [tag_loop].
  - intros [= <-]. constructor.
  - intros H. apply bind_Ok in H as (row & Hrow & H).
    apply bind_Ok in H as (rest & Hrest & H). injection H as <-.
    specialize (IH _ Hrest). destruct row as [r|]; [|exact IH].
    constructor; [eapply Hbody; eassumption | exact IH].
Qed.

Lemma nd_loop_Forall (element : Element) (nds : list Element) (i : nat)
    (rows : list nd_row) :
  nd_loop element nds i = Ok rows ->
  Forall (fun r => nd_id r = get element "id") rows.
Proof.
  revert i rows. induction nds as [|nd nds IH]; intros i rows; cbn [nd_loop].
  - intros [= <-]. constructor.
  - intros H. apply bind_Ok in H as (ref & _ & H).
    apply bind_Ok in H as (rest & Hrest & H). injection H as <-.
    constructor; [reflexivity | eapply IH; eassumption].
Qed.

(** X12. Every row that [shape_element] derives from a record carries the
    identifier of the record: the tag rows and the member rows hold the [id]
    attribute of the element, and the primary row holds, in the order of the
    field list, what [element.get] gives for every field (nothing for an
    attribute that is not there). *)
Theorem shape_element_ids (element : Element)
    (node_attr_fields way_attr_fields : list string)
    (problem_chars arabic_chars : regex) (default_tag_type : string)
    (sh : shaped) :
  shape_element element node_attr_fields way_attr_fields problem_chars
                arabic_chars default_tag_type = Ok (Some sh) ->
  match sh with
  | NodeShape node node_tags =>
      node = map (fun f => (f, get element f)) node_attr_fields
      /\ Forall (fun r => t_id r = get element "id") node_tags
  | WayShape way way_nodes way_tags =>
      way = map (fun f => (f, get element f)) way_attr_fields
      /\ Forall (fun r => nd_id r = get element "id") way_nodes
      /\ Forall (fun r => t_id r = get element "id") way_tags
  end.
Proof.
  unfold shape_element.
  destruct (String.eqb (tag element) "node").
  - intros H. apply bind_Ok in H as (rows & Hrows & H). injection H as <-.
    split; [reflexivity|].
    eapply tag_loop_Forall; [|exact Hrows].
    intros tg row. apply node_tag_id.
  - destruct (String.eqb (tag element) "way"); [|discriminate].
    intros H. apply bind_Ok in H as (nodes & Hnodes & H).
    apply bind_Ok in H as (rows & Hrows & H). injection H as <-.
    split; [reflexivity|]. split.
    + eapply nd_loop_Forall, Hnodes.
    + eapply tag_loop_Forall; [|exact Hrows].
      intros tg row. apply way_tag_id.
Qed.

Lemma shape_element_ids_witness :
  [("id", Some "7"); ("user", None)]
  = map (fun f => (f, get (Elem "way" [("id", "7")]
                             [Elem "nd" [("ref", "10")] [];
                              Elem "tag" [("k", "oneway"); ("v", "yes")] []]) f))
        ["id"; "user"]
  /\ Forall (fun r => nd_id r = Some "7") [NdRow (Some "7") "10" 0]
  /\ Forall (fun r => t_id r = Some "7")
            [TagRow (Some "7") "oneway" "None" "regular"].
Proof.
  apply (shape_element_ids
           (Elem "way" [("id", "7")]
              [Elem "nd" [("ref", "10")] [];
               Elem "tag" [("k", "oneway"); ("v", "yes")] []])
           NODE_FIELDS ["id"; "user"] PROBLEMCHARS ARABICKEY "regular"
           (WayShape [("id", Some "7"); ("user", None)]
                     [NdRow (Some "7") "10" 0]
                     [TagRow (Some "7") "oneway" "None" "regular"])).
  vm_compute. reflexivity.
Defined.

(** ** Keys that are skipped *)

(** A bracketed set is found in a string exactly when one of its
    characters is in the set. *)
Lemma search_from_class (items : list citem) (s : string) (pre : list ascii) :
  match search_from (Class items) pre s with Some _ => true | None => false end
  = some_char (class_mem items) s.
Proof.
  revert pre. induction s as [|c s IH]; intros pre; cbn [search_from some_char].
  - reflexivity.
  - unfold match_at at 1. cbn [exec]. unfold one. cbn [after].
    destruct (class_mem items c); cbn [orb]; [reflexivity | apply IH].
Qed.

Lemma class_mem_PROBLEMCHARS (c : ascii) :
  class_mem
    [One "="; One "+"; One "/"; One "&"; One "<"; One ">"; One ";";
     One "'"; One (chr 34); One "?"; One "%"; One "#"; One "$"; One "@";
     One ","; One "."; One " "; One (chr 9); One (chr 13); One (chr 10)] c
  = is_problem_char c.
Proof. destruct c as [[] [] [] [] [] [] [] []]; reflexivity. Qed.

Lemma found_PROBLEMCHARS (k : string) :
  found PROBLEMCHARS k = some_char is_problem_char k.
Proof.
  unfold found, search, PROBLEMCHARS. rewrite search_from_class.
  induction k as [|c k IH]; cbn [some_char]; [reflexivity|].
  rewrite class_mem_PROBLEMCHARS, IH. reflexivity.
Qed.

(** X13. A sub-tag whose key holds one of the problem characters gives no
    row and raises nothing, whatever its value and even without a value: in
    the way branch for every argument, in the node branch for the default
    pattern. *)
Theorem problem_key_skipped (element tg : Element) (k : string)
    (problem_chars arabic_chars : regex) (default_tag_type : string) :
  lookup (attrib tg) "k" = Some k ->
  some_char is_problem_char k = true ->
  way_tag element tg problem_chars arabic_chars default_tag_type = Ok None
  /\ node_tag element tg PROBLEMCHARS arabic_chars default_tag_type = Ok None.
Proof.
  intros Hk Hp. unfold way_tag, node_tag, getitem. rewrite Hk. cbn [bind].
  rewrite found_PROBLEMCHARS, Hp. split; reflexivity.
Qed.

Lemma problem_key_skipped_witness :
  way_tag (Elem "way" [("id", "7")] [])
          (Elem "tag" [("k", "opening hours")] [])
          (Lit "x") ARABICKEY "regular" = Ok None
  /\ node_tag (Elem "way" [("id", "7")] [])
              (Elem "tag" [("k", "opening hours")] [])
              PROBLEMCHARS ARABICKEY "regular" = Ok None.
Proof.
  apply (problem_key_skipped _ _ "opening hours").
  - reflexivity.
  - reflexivity.
Defined.

Lemma search_from_ARABICKEY (p : string) (pre : list ascii) :
  search_from ARABICKEY pre (p ++ ":ar") <> None.
Proof.
  revert pre. induction p as [|c p IH]; intros pre.
  - vm_compute. discriminate.
  - cbn [append search_from].
    destruct (match_at ARABICKEY pre (String c (p ++ ":ar")));
      [discriminate | apply IH].
Qed.

(** X14. A sub-tag whose key ends in [:ar] gives no row and raises
    nothing, in both branches, whatever the exclusion pattern, its value, or
    the lack of one. *)
Theorem arabic_key_skipped (element tg : Element) (p : string)
    (problem_chars : regex) (default_tag_type : string) :
  lookup (attrib tg) "k" = Some (p ++ ":ar")%string ->
  node_tag element tg problem_chars ARABICKEY default_tag_type = Ok None
  /\ way_tag element tg problem_chars ARABICKEY default_tag_type = Ok None.
Proof.
  intros Hk. unfold way_tag, node_tag, getitem. rewrite Hk. cbn [bind].
  assert (Ha : found ARABICKEY (p ++ ":ar") = true).
  { unfold found, search. pose proof (search_from_ARABICKEY p []) as H.
    destruct (search_from ARABICKEY [] (p ++ ":ar"));
      [reflexivity | contradiction H; reflexivity]. }
  rewrite Ha.
  destruct (found problem_chars _), (found PROBLEMCHARS _); split; reflexivity.
Qed.

Lemma arabic_key_skipped_witness :
  node_tag (Elem "node" [("id", "7")] [])
           (Elem "tag" [("k", "addr:street:ar")] [])
           PROBLEMCHARS ARABICKEY "regular" = Ok None
  /\ way_tag (Elem "node" [("id", "7")] [])
             (Elem "tag" [("k", "addr:street:ar")] [])
             PROBLEMCHARS ARABICKEY "regular" = Ok None.
Proof.
  apply (arabic_key_skipped _ _ "addr:street").
  reflexivity.
Defined.

(** ** What can go wrong *)

Lemma getitem_raise (d : dict) (k : string) (x : exn) :
  getitem d k = Raise x -> x = KeyError.
Proof.
  unfold getitem. destruct (lookup d k); [discriminate|].
  intros [= <-]. reflexivity.
Qed.

Lemma bind_Raise {A B : Type} (e : result A) (f : A -> result B) (x : exn) :
  bind e f = Raise x ->
  e = Raise x \/ exists a, e = Ok a /\ f a = Raise x.
Proof.
  destruct e as [a|y]; cbn.
  - intros H. right. exists a. split; [reflexivity | exact H].
  - intros [= ->]. left. reflexivity.
Qed.

Lemma node_tag_raise (element tg : Element) (problem_chars arabic_chars : regex)
    (dtt : string) (x : exn) :
  node_tag element tg problem_chars arabic_chars dtt = Raise x -> x = KeyError.
Proof.
  unfold node_tag. intros H.
  apply bind_Raise in H as [H|(k & Hk & H)]; [eapply getitem_raise, H|].
  destruct (found problem_chars k); [discriminate|].
  destruct (found arabic_chars k); [discriminate|].
  destruct (getitem (attrib tg) "v") as [v|y] eqn:Hv.
  - exfalso. cbn [bind] in H.
    destruct (tag_value_returns k v) as [value Hval]. rewrite Hval in H.
    cbn [bind] in H.
    destruct (found LOWER_COLON k) eqn:Hlc; [|discriminate].
    destruct (unpack2_returns k Hlc) as [tk Htk]. rewrite Htk in H.
    discriminate.
  - apply getitem_raise in Hv. subst y. cbn [bind] in H.
    destruct (String.eqb k "addr:street"); [injection H as <-; reflexivity|].
    destruct (String.eqb k "building"); [injection H as <-; reflexivity|].
    destruct (String.eqb k "surface"); [injection H as <-; reflexivity|].
    destruct (String.eqb k "oneway"); [injection H as <-; reflexivity|].
    destruct (String.eqb k "addr:city"); injection H as <-; reflexivity.
Qed.

Lemma way_tag_raise (element tg : Element) (problem_chars arabic_chars : regex)
    (dtt : string) (x : exn) :
  way_tag element tg problem_chars arabic_chars dtt = Raise x -> x = KeyError.
Proof.
  unfold way_tag. intros H.
  apply bind_Raise in H as [H|(k & Hk & H)]; [eapply getitem_raise, H|].
  destruct (found PROBLEMCHARS k); [discriminate|].
  destruct (found arabic_chars k); [discriminate|].
  destruct (getitem (attrib tg) "v") as [v|y] eqn:Hv.
  - exfalso. cbn [bind] in H.
    destruct (tag_value_returns k v) as [value Hval]. rewrite Hval in H.
    cbn [bind] in H.
    destruct (found LOWER_COLON k) eqn:Hlc; [|discriminate].
    destruct (unpack2_returns k Hlc) as [tk Htk]. rewrite Htk in H.
    discriminate.
  - apply getitem_raise in Hv. subst y. cbn [bind] in H.
    destruct (String.eqb k "addr:street"); [injection H as <-; reflexivity|].
    destruct (String.eqb k "building"); [injection H as <-; reflexivity|].
    destruct (String.eqb k "surface"); [injection H as <-; reflexivity|].
    destruct (String.eqb k "oneway"); [injection H as <-; reflexivity|].
    destruct (String.eqb k "addr:city"); injection H as <-; reflexivity.
Qed.

Lemma tag_loop_raise (body : Element -> result (option tag_row))
    (tags : list Element) (x : exn) :
  (forall tg y, body tg = Raise y -> y = KeyError) ->
  tag_loop body tags = Raise x -> x = KeyError.
Proof.
  intros Hbody. induction tags as [|tg tags IH]; cbn [tag_loop]; [discriminate|].
  intros H. apply bind_Raise in H as [H|(row & _ & H)]; [eapply Hbody, H|].
  apply bind_Raise in H as [H|(rows & _ & H)]; [apply IH, H | discriminate H].
Qed.

Lemma nd_loop_raise (element : Element) (nds : list Element) (i : nat)
    (x : exn) :
  nd_loop element nds i = Raise x -> x = KeyError.
Proof.
  revert i. induction nds as [|nd nds IH]; intros i; cbn [nd_loop];
    [discriminate|].
  intros H. apply bind_Raise in H as [H|(ref & _ & H)];
    [eapply getitem_raise, H|].
  apply bind_Raise in H as [H|(rows & _ & H)]; [eapply IH, H | discriminate H].
Qed.

(** X15. The one exception [shape_element] raises is [KeyError], and it
    raises it only for a record with a member reference without [ref] or a
    sub-tag without [k] or [v]. *)
Theorem shape_element_raises_KeyError (element : Element)
    (node_attr_fields way_attr_fields : list string)
    (problem_chars arabic_chars : regex) (default_tag_type : string)
    (x : exn) :
  shape_element element node_attr_fields way_attr_fields problem_chars
                arabic_chars default_tag_type = Raise x ->
  x = KeyError /\ well_formed element = false.
Proof.
  intros H. split.
  - unfold shape_element in H.
    destruct (String.eqb (tag element) "node").
    + apply bind_Raise in H as [H|(rows & _ & H)]; [|discriminate H].
      eapply tag_loop_raise; [|exact H]. intros tg y. apply node_tag_raise.
    + destruct (String.eqb (tag element) "way"); [|discriminate].
      apply bind_Raise in H as [H|(nodes & _ & H)]; [eapply nd_loop_raise, H|].
      apply bind_Raise in H as [H|(rows & _ & H)]; [|discriminate H].
      eapply tag_loop_raise; [|exact H]. intros tg y. apply way_tag_raise.
  - destruct (well_formed element) eqn:Hwf; [|reflexivity].
    destruct (shape_element_returns element node_attr_fields way_attr_fields
                problem_chars arabic_chars default_tag_type Hwf) as [sh Hsh].
    rewrite Hsh in H. discriminate.
Qed.

Lemma shape_element_raises_KeyError_witness :
  KeyError = KeyError
  /\ well_formed (Elem "node" [("id", "7")] [Elem "tag" [("k", "name")] []])
     = false.
Proof.
  apply (shape_element_raises_KeyError
           (Elem "node" [("id", "7")] [Elem "tag" [("k", "name")] []])
           NODE_FIELDS WAY_FIELDS PROBLEMCHARS ARABICKEY "regular" KeyError).
  vm_compute. reflexivity.
Defined.

(* ===================================================================== *)
(** * The files of process_map *)
(* ===================================================================== *)

Lemma linked_node (out : ProcessMap.files) (element : Element)
    (node : list (string * option string)) (node_tags : list tag_row) :
  linked out ->
  shape element = Ok (Some (NodeShape node node_tags)) ->
  linked (ProcessMap.Files
            (ProcessMap.nodes_file out ++ [node])
            (ProcessMap.node_tags_file out ++ node_tags)
            (ProcessMap.ways_file out) (ProcessMap.way_nodes_file out)
            (ProcessMap.way_tags_file out)).
Proof.
  intros (H1 & H2 & H3) Hs. apply shape_element_ids in Hs as [-> Hall].
  rewrite Forall_forall in Hall.
  split; [|split; assumption]. cbn. intros r Hr.
  apply in_app_or in Hr as [Hr|Hr].
  - destruct (H1 r Hr) as (p & Hp & Hid). exists p. split; [|exact Hid].
    apply in_or_app. left. exact Hp.
  - eexists. split; [apply in_or_app; right; left; reflexivity|].
    unfold has_id. rewrite (Hall r Hr). cbn. left. reflexivity.
Qed.

Lemma linked_way (out : ProcessMap.files) (element : Element)
    (way : list (string * option string)) (way_nodes : list nd_row)
    (way_tags : list tag_row) :
  linked out ->
  shape element = Ok (Some (WayShape way way_nodes way_tags)) ->
  linked (ProcessMap.Files
            (ProcessMap.nodes_file out) (ProcessMap.node_tags_file out)
            (ProcessMap.ways_file out ++ [way])
            (ProcessMap.way_nodes_file out ++ way_nodes)
            (ProcessMap.way_tags_file out ++ way_tags)).
Proof.
  intros (H1 & H2 & H3) Hs.
  apply shape_element_ids in Hs as (-> & Hnodes & Htags).
  rewrite Forall_forall in Hnodes, Htags.
  split; [exact H1|]. split; cbn; intros r Hr;
    apply in_app_or in Hr as [Hr|Hr].
  - destruct (H2 r Hr) as (p & Hp & Hid). exists p. split; [|exact Hid].
    apply in_or_app. left. exact Hp.
  - eexists. split; [apply in_or_app; right; left; reflexivity|].
    unfold has_id. rewrite (Htags r Hr). cbn. left. reflexivity.
  - destruct (H3 r Hr) as (p & Hp & Hid). exists p. split; [|exact Hid].
    apply in_or_app. left. exact Hp.
  - eexists. split; [apply in_or_app; right; left; reflexivity|].
    unfold has_id. rewrite (Hnodes r Hr). cbn. left. reflexivity.
Qed.

Lemma process_loop_linked (validate : bool) (validator : shaped -> bool)
    (elements : list Element) (out : ProcessMap.files) :
  linked out ->
  linked (fst (ProcessMap.process_loop validate validator elements out)).
Proof.
  revert out. induction elements as [|e es IH]; intros out Hout;
    cbn [ProcessMap.process_loop]; [exact Hout|].
  destruct (shape e) as [[el|]|x] eqn:Hs; [|apply IH, Hout | exact Hout].
  destruct (validate && negb (validator el)); [exact Hout|].
  destruct (String.eqb (tag e) "node").
  - destruct el as [node tags|way nodes tags]; [|exact Hout].
    apply IH. eapply linked_node; eassumption.
  - destruct (String.eqb (tag e) "way"); [|apply IH, Hout].
    destruct el as [node tags|way nodes tags]; [exact Hout|].
    apply IH. eapply linked_way; eassumption.
Qed.

(** X16. However [process_map] ends, with or without validation, the
    files it has written are linked: every row of the node-tag file carries
    the [id] of a row of the node file, and every row of the way-tag file and
    of the way-node file carries the [id] of a row of the way file. *)
Theorem process_map_linked (validate : bool) (validator : shaped -> bool)
    (events : list (string * Element)) :
  linked (fst (ProcessMap.process_map validate validator events)).
Proof.
  unfold ProcessMap.process_map. apply process_loop_linked.
  repeat split; intros r [].
Qed.

(** X17. The loop of [process_map] goes through a stream piece by piece:
    the files after a stream are those after its second part, started from
    the files the first part leaves; and when the first part fails, the
    files are those written until then and the second part is not looked
    at. *)
Theorem process_loop_app (validate : bool) (validator : shaped -> bool)
    (es1 es2 : list Element) (out : ProcessMap.files) :
  ProcessMap.process_loop validate validator (es1 ++ es2) out
  = match ProcessMap.process_loop validate validator es1 out with
    | (out1, None) => ProcessMap.process_loop validate validator es2 out1
    | (out1, Some f) => (out1, Some f)
    end.
Proof.
  revert out. induction es1 as [|e es1 IH]; intros out;
    cbn [app ProcessMap.process_loop]; [reflexivity|].
  destruct (shape e) as [[el|]|x]; [|apply IH | reflexivity].
  destruct (validate && negb (validator el)); [reflexivity|].
  destruct (String.eqb (tag e) "node").
  - destruct el; [apply IH | reflexivity].
  - destruct (String.eqb (tag e) "way"); [|apply IH].
    destruct el; [reflexivity | apply IH].
Qed.

Lemma nd_loop_length (element : Element) (nds : list Element) (i : nat)
    (rows : list nd_row) :
  nd_loop element nds i = Ok rows -> List.length rows = List.length nds.
Proof.
  revert i rows. induction nds as [|nd nds IH]; intros i rows; cbn [nd_loop].
  - intros [= <-]. reflexivity.
  - intros H. apply bind_Ok in H as (ref & _ & H).
    apply bind_Ok in H as (rest & Hrest & H). injection H as <-.
    cbn. f_equal. eapply IH, Hrest.
Qed.

Lemma process_loop_counts (validate : bool) (validator : shaped -> bool)
    (elements : list Element) (out : ProcessMap.files) :
  forallb well_formed elements = true ->
  validate = false \/ (forall sh, validator sh = true) ->
  let res := ProcessMap.process_loop validate validator elements out in
  snd res = None
  /\ List.length (ProcessMap.nodes_file (fst res))
     = List.length (ProcessMap.nodes_file out) + count_tag "node" elements
  /\ List.length (ProcessMap.ways_file (fst res))
     = List.length (ProcessMap.ways_file out) + count_tag "way" elements
  /\ List.length (ProcessMap.way_nodes_file (fst res))
     = List.length (ProcessMap.way_nodes_file out) + member_count elements.
Proof.
  intros Hwf Hval. revert out Hwf.
  induction elements as [|e es IH]; intros out Hwf.
  - cbn. unfold count_tag, member_count. cbn. repeat split; lia.
  - cbn [forallb] in Hwf. apply andb_prop in Hwf as [He Hes].
    cbn [ProcessMap.process_loop].
    assert (Hv : forall el, validate && negb (validator el) = false).
    { intros el. destruct Hval as [-> | Hv]; [reflexivity|].
      rewrite Hv. apply andb_false_r. }
    unfold count_tag, member_count in *. cbn [filter].
    unfold shape, shape_element.
    destruct (String.eqb (tag e) "node") eqn:Hn.
    + assert (Hw : String.eqb (tag e) "way" = false).
      { apply String.eqb_eq in Hn. rewrite Hn. reflexivity. }
      rewrite Hw.
      destruct (tag_loop_returns
                  (fun tg => node_tag e tg PROBLEMCHARS ARABICKEY "regular")
                  (iter e "tag")) as [rows ->].
      { intros tg Htg. unfold well_formed in He.
        apply andb_prop in He as [_ He]. rewrite forallb_forall in He.
        destruct (andb_prop _ _ (He tg Htg)). apply node_tag_returns; assumption. }
      cbn [bind]. rewrite Hv.
      specialize (IH (ProcessMap.Files
                        (ProcessMap.nodes_file out ++
                           [map (fun f => (f, get e f)) NODE_FIELDS])
                        (ProcessMap.node_tags_file out ++ rows)
                        (ProcessMap.ways_file out)
                        (ProcessMap.way_nodes_file out)
                        (ProcessMap.way_tags_file out)) Hes).
      cbn [ProcessMap.nodes_file ProcessMap.ways_file
           ProcessMap.way_nodes_file] in IH.
      rewrite length_app in IH. cbn [List.length] in *.
      destruct IH as (I1 & I2 & I3 & I4). repeat split; try assumption; lia.
    + destruct (String.eqb (tag e) "way") eqn:Hw.
      * unfold well_formed in He. apply andb_prop in He as [Hnd He].
        destruct (nd_loop_positions e (iter e "nd") 0 Hnd)
          as (nodes & Hloop & Hpos & _).
        rewrite Hloop. cbn [bind].
        destruct (tag_loop_returns
                    (fun tg => way_tag e tg PROBLEMCHARS ARABICKEY "regular")
                    (iter e "tag")) as [rows ->].
        { intros tg Htg. rewrite forallb_forall in He.
          destruct (andb_prop _ _ (He tg Htg)).
          apply way_tag_returns; assumption. }
        cbn [bind]. rewrite Hv.
        specialize (IH (ProcessMap.Files
                          (ProcessMap.nodes_file out)
                          (ProcessMap.node_tags_file out)
                          (ProcessMap.ways_file out ++
                             [map (fun f => (f, get e f)) WAY_FIELDS])
                          (ProcessMap.way_nodes_file out ++ nodes)
                          (ProcessMap.way_tags_file out ++ rows)) Hes).
        cbn [ProcessMap.nodes_file ProcessMap.ways_file
             ProcessMap.way_nodes_file] in IH.
        rewrite !length_app in IH. cbn [List.length map] in *.
        match goal with
        | |- context [list_sum (?x :: ?l)] =>
            change (list_sum (x :: l)) with (x + list_sum l)
        end.
        apply nd_loop_length in Hloop.
        destruct IH as (I1 & I2 & I3 & I4). repeat split; try assumption; lia.
      * specialize (IH out Hes). exact IH.
Qed.

(** X18. When every node and way of the stream carries the attributes
    [shape_element] reads, and validation is off or accepts every record,
    [process_map] runs to the end, and has written one row of the node file
    for every node, one row of the way file for every way, and one row of the
    way-node file for every member reference of a way. *)
Theorem process_map_row_counts (validate : bool) (validator : shaped -> bool)
    (events : list (string * Element)) :
  let elements := OSMFile.get_element events ["node"; "way"] in
  let res := ProcessMap.process_map validate validator events in
  forallb well_formed elements = true ->
  validate = false \/ (forall sh, validator sh = true) ->
  snd res = None
  /\ List.length (ProcessMap.nodes_file (fst res)) = count_tag "node" elements
  /\ List.length (ProcessMap.ways_file (fst res)) = count_tag "way" elements
  /\ List.length (ProcessMap.way_nodes_file (fst res)) = member_count elements.
Proof.
  intros elements res Hwf Hval.
  apply (process_loop_counts validate validator elements ProcessMap.no_rows
           Hwf Hval).
Qed.

Lemma process_map_row_counts_witness :
  let events :=
    [("start", Elem "osm" [] []);
     ("end", Elem "node" [("id", "10")] []);
     ("end", Elem "way" [("id", "7")]
               [Elem "nd" [("ref", "10")] [];
                Elem "tag" [("k", "oneway"); ("v", "yes")] []]);
     ("end", Elem "relation" [("id", "3")] []);
     ("end", Elem "osm" [] [])] in
  let res := ProcessMap.process_map false (fun _ => false) events in
  snd res = None
  /\ List.length (ProcessMap.nodes_file (fst res)) = 1
  /\ List.length (ProcessMap.ways_file (fst res)) = 1
  /\ List.length (ProcessMap.way_nodes_file (fst res)) = 1.
Proof.
  apply (process_map_row_counts false (fun _ => false)
           [("start", Elem "osm" [] []);
            ("end", Elem "node" [("id", "10")] []);
            ("end", Elem "way" [("id", "7")]
                      [Elem "nd" [("ref", "10")] [];
                       Elem "tag" [("k", "oneway"); ("v", "yes")] []]);
            ("end", Elem "relation" [("id", "3")] []);
            ("end", Elem "osm" [] [])]).
  - reflexivity.
  - left. reflexivity.
Defined.

(* ===================================================================== *)
(** * The sample file *)
(* ===================================================================== *)

(** X19. With a sample size of zero [create_sample_file] raises
    [ZeroDivisionError] at the first element, after the two opening lines
    and before the closing one is written; only for a stream without
    elements does it write the complete, empty file. *)
Theorem create_sample_file_zero (tostring : Element -> string)
    (events : list (string * Element)) :
  OSMFile.create_sample_file tostring 0 events
  = match OSMFile.get_element events OSMFile.default_tags with
    | [] =>
        ((OSMFile.xml_declaration ++ OSMFile.osm_open ++ OSMFile.osm_close)%string,
         None)
    | _ :: _ =>
        ((OSMFile.xml_declaration ++ OSMFile.osm_open)%string,
         Some OSMFile.ZeroDivisionError)
    end.
Proof.
  unfold OSMFile.create_sample_file.
  destruct (OSMFile.get_element events OSMFile.default_tags) as [|e es];
    cbn [OSMFile.sample_loop Z.eqb].
  - rewrite str_app_assoc. reflexivity.
  - reflexivity.
Qed.

Lemma sample_loop_every (tostring : Element -> string) (k : Z)
    (elements : list Element) :
  (0 < k)%Z ->
  forall (i : Z) (skip : nat) (output : string),
    ((i + Z.of_nat skip) mod k = 0)%Z ->
    (Z.of_nat skip < k)%Z ->
    OSMFile.sample_loop tostring k i elements output
    = ((output
        ++ join_all (map tostring
                         (every_kth_from (Z.to_nat k) skip elements)))%string,
       None).
Proof.
  intros Hk. induction elements as [|e es IH]; intros i skip output Hmod Hlt;
    cbn [OSMFile.sample_loop every_kth_from map join_all].
  - rewrite str_app_nil_r. reflexivity.
  - destruct (Z.eqb_spec k 0) as [->|_]; [lia|].
    destruct skip as [|skip].
    + rewrite Z.add_0_r in Hmod. rewrite Hmod. cbn [Z.eqb].
      rewrite (IH (i + 1)%Z (Z.to_nat k - 1) (output ++ tostring e)%string).
      * cbn [map join_all]. rewrite str_app_assoc. reflexivity.
      * replace (i + 1 + Z.of_nat (Z.to_nat k - 1))%Z with (i + 1 * k)%Z by lia.
        rewrite Z.mod_add by lia. exact Hmod.
      * lia.
    + assert (Hne : (i mod k)%Z <> 0%Z).
      { intros Hz.
        rewrite Z.add_mod, Hz, Z.add_0_l, Z.mod_mod in Hmod by lia.
        rewrite Z.mod_small in Hmod by lia. lia. }
      destruct (Z.eqb_spec (i mod k) 0) as [Hz|_]; [contradiction|].
      apply IH; [|lia].
      replace (i + 1 + Z.of_nat skip)%Z with (i + Z.of_nat (S skip))%Z by lia.
      exact Hmod.
Qed.

(** X20. With a positive sample size [k], [create_sample_file] raises
    nothing and writes the two opening lines, then the first of the elements
    [get_element] yields and every [k]-th one after it, each as [tostring]
    gives it and in the order of the stream, then the closing line. *)
Theorem create_sample_file_every_kth (tostring : Element -> string) (k : Z)
    (events : list (string * Element)) :
  (0 < k)%Z ->
  OSMFile.create_sample_file tostring k events
  = ((OSMFile.xml_declaration ++ OSMFile.osm_open
      ++ join_all (map tostring
                       (every_kth (Z.to_nat k)
                          (OSMFile.get_element events OSMFile.default_tags)))
      ++ OSMFile.osm_close)%string,
     None).
Proof.
  intros Hk. unfold OSMFile.create_sample_file, every_kth.
  rewrite (sample_loop_every tostring k _ Hk 0%Z 0) by (cbn; lia || reflexivity).
  rewrite !str_app_assoc. reflexivity.
Qed.

Lemma create_sample_file_every_kth_witness :
  OSMFile.create_sample_file (fun e => ("<" ++ tag e ++ "/>")%string) 2
    [("start", Elem "osm" [] []);
     ("end", Elem "node" [] []); ("end", Elem "tag" [] []);
     ("end", Elem "way" [] []); ("end", Elem "relation" [] []);
     ("end", Elem "osm" [] [])]
  = ((OSMFile.xml_declaration ++ OSMFile.osm_open
      ++ "<node/><relation/>" ++ OSMFile.osm_close)%string, None).
Proof.
  apply (create_sample_file_every_kth
           (fun e => ("<" ++ tag e ++ "/>")%string) 2
           [("start", Elem "osm" [] []);
            ("end", Elem "node" [] []); ("end", Elem "tag" [] []);
            ("end", Elem "way" [] []); ("end", Elem "relation" [] []);
            ("end", Elem "osm" [] [])]).
  reflexivity.
Defined.

(* ===================================================================== *)
(** * The audits *)
(* ===================================================================== *)

Lemma str_in_In (x : string) (l : list string) :
  str_in x l = true <-> In x l.
Proof.
  unfold str_in. rewrite existsb_exists. split.
  - intros (y & Hy & Heq). apply String.eqb_eq in Heq. subst y. exact Hy.
  - intros H. exists x. split; [exact H | apply String.eqb_refl].
Qed.

Lemma set_add_In (x y : string) (s : list string) :
  In y (AuditOSM.set_add x s) <-> y = x \/ In y s.
Proof.
  unfold AuditOSM.set_add. destruct (str_in x s) eqn:Hx.
  - apply str_in_In in Hx. split; [intros H; right; exact H|].
    intros [->|H]; assumption.
  - rewrite in_app_iff. cbn. split.
    + intros [H|[<-|[]]]; [right; exact H | left; reflexivity].
    + intros [->|H]; [right; left; reflexivity | left; exact H].
Qed.

Lemma set_add_NoDup (x : string) (s : list string) :
  NoDup s -> NoDup (AuditOSM.set_add x s).
Proof.
  intros H. unfold AuditOSM.set_add. destruct (str_in x s) eqn:Hx; [exact H|].
  apply (Permutation_NoDup (Permutation_cons_append s x)).
  constructor; [|exact H].
  intros Hin. apply str_in_In in Hin. rewrite Hin in Hx. discriminate.
Qed.

Lemma audited_tags_cons (e : Element) (es : list Element) :
  audited_tags (e :: es)
  = if String.eqb (tag e) "node" || String.eqb (tag e) "way"
    then iter e "tag" ++ audited_tags es
    else audited_tags es.
Proof.
  unfold audited_tags. cbn [filter].
  destruct (String.eqb (tag e) "node" || String.eqb (tag e) "way"); reflexivity.
Qed.

Lemma audit_key_tags_app (self : AuditOSM.auditOSM) (t1 t2 : list Element)
    (acc : list string) :
  AuditOSM.audit_key_tags self (t1 ++ t2) acc
  = (a <- AuditOSM.audit_key_tags self t1 acc ;;
     AuditOSM.audit_key_tags self t2 a).
Proof.
  revert acc. induction t1 as [|tg t1 IH]; intros acc;
    cbn [app AuditOSM.audit_key_tags]; [reflexivity|].
  destruct (AuditOSM.is_key_match self tg) as [[|]|x]; cbn [bind];
    [|apply IH | reflexivity].
  destruct (getitem (attrib tg) "v") as [v|x]; cbn [bind]; [|reflexivity].
  destruct (negb (str_in v (AuditOSM.expected self))); cbn [bind]; apply IH.
Qed.

Lemma audit_key_loop_tags (self : AuditOSM.auditOSM) (elems : list Element)
    (acc : list string) :
  AuditOSM.audit_key_loop self elems acc
  = AuditOSM.audit_key_tags self (audited_tags elems) acc.
Proof.
  revert acc. induction elems as [|e es IH]; intros acc;
    cbn [AuditOSM.audit_key_loop]; [reflexivity|].
  rewrite audited_tags_cons.
  destruct (String.eqb (tag e) "node" || String.eqb (tag e) "way"); [|apply IH].
  rewrite audit_key_tags_app.
  destruct (AuditOSM.audit_key_tags self (iter e "tag") acc); cbn [bind];
    [apply IH | reflexivity].
Qed.

Lemma audit_key_tags_spec (self : AuditOSM.auditOSM) (tags : list Element) :
  forall acc,
    if forallb (auditable (AuditOSM.key self)) tags then
      exists vs,
        AuditOSM.audit_key_tags self tags acc = Ok vs
        /\ (NoDup acc -> NoDup vs)
        /\ forall v,
             In v vs <->
             In v acc
             \/ (str_in v (AuditOSM.expected self) = false
                 /\ exists tg, In tg tags /\ tagged (AuditOSM.key self) v tg)
    else AuditOSM.audit_key_tags self tags acc = Raise KeyError.
Proof.
  induction tags as [|tg tags IH]; intros acc; cbn [forallb].
  - exists acc. split; [reflexivity|]. split; [auto|].
    intros v. split; [auto|]. intros [H|(_ & tg & [] & _)]. exact H.
  - cbn [AuditOSM.audit_key_tags].
    unfold auditable at 1, AuditOSM.is_key_match, getitem, has_attr, get.
    destruct (lookup (attrib tg) "k") as [k|] eqn:Hk; cbn [bind andb];
      [|reflexivity].
    destruct (String.eqb_spec k (AuditOSM.key self)) as [->|Hne].
    + destruct (lookup (attrib tg) "v") as [v0|] eqn:Hv; cbn [bind andb];
        [|reflexivity].
      destruct (str_in v0 (AuditOSM.expected self)) eqn:Hexp; cbn [negb bind].
      * specialize (IH acc).
        destruct (forallb (auditable (AuditOSM.key self)) tags); [|exact IH].
        destruct IH as (vs & Hvs & Hnd & Hin). exists vs.
        split; [exact Hvs|]. split; [exact Hnd|].
        intros v. rewrite Hin. split.
        -- intros [H|(Hx & t & Ht & Htag)]; [left; exact H|].
           right. split; [exact Hx|]. exists t. split; [right; exact Ht | exact Htag].
        -- intros [H|(Hx & t & [<-|Ht] & Htag)]; [left; exact H | |].
           ++ destruct Htag as [_ Htv]. rewrite Hv in Htv. injection Htv as ->.
              rewrite Hexp in Hx. discriminate.
           ++ right. split; [exact Hx|]. exists t. split; assumption.
      * specialize (IH (AuditOSM.set_add v0 acc)).
        destruct (forallb (auditable (AuditOSM.key self)) tags); [|exact IH].
        destruct IH as (vs & Hvs & Hnd & Hin). exists vs.
        split; [exact Hvs|].
        split; [intros Hacc; apply Hnd, set_add_NoDup, Hacc|].
        intros v. rewrite Hin, set_add_In. split.
        -- intros [[->|H]|(Hx & t & Ht & Htag)].
           ++ right. split; [exact Hexp|]. exists tg.
              split; [left; reflexivity | split; assumption].
           ++ left; exact H.
           ++ right. split; [exact Hx|]. exists t.
              split; [right; exact Ht | exact Htag].
        -- intros [H|(Hx & t & [<-|Ht] & Htag)].
           ++ left; right; exact H.
           ++ destruct Htag as [_ Htv]. rewrite Hv in Htv. injection Htv as ->.
              left; left; reflexivity.
           ++ right. split; [exact Hx|]. exists t. split; assumption.
    + specialize (IH acc).
      destruct (forallb (auditable (AuditOSM.key self)) tags); [|exact IH].
      destruct IH as (vs & Hvs & Hnd & Hin). exists vs.
      split; [exact Hvs|]. split; [exact Hnd|].
      intros v. rewrite Hin. split.
      * intros [H|(Hx & t & Ht & Htag)]; [left; exact H|].
        right. split; [exact Hx|]. exists t. split; [right; exact Ht | exact Htag].
      * intros [H|(Hx & t & [<-|Ht] & Htag)]; [left; exact H | |].
        -- destruct Htag as [Htk _]. rewrite Hk in Htk. injection Htk as ->.
           contradiction Hne. reflexivity.
        -- right. split; [exact Hx|]. exists t. split; assumption.
Qed.

(** X21. [audit_key] looks at the sub-tags of the nodes and ways it is
    given.  When each of them has a [k], and a [v] if its [k] is the audited
    key, the result has no repetition and holds exactly the values of the
    sub-tags with the audited key that are not in the expected list;
    otherwise [audit_key] raises [KeyError]. *)
Theorem audit_key_values (self : AuditOSM.auditOSM) (elems : list Element) :
  if forallb (auditable (AuditOSM.key self)) (audited_tags elems) then
    exists vs,
      AuditOSM.audit_key self elems = Ok vs
      /\ NoDup vs
      /\ forall v,
           In v vs <->
           str_in v (AuditOSM.expected self) = false
           /\ exists tg,
                In tg (audited_tags elems) /\ tagged (AuditOSM.key self) v tg
  else AuditOSM.audit_key self elems = Raise KeyError.
Proof.
  unfold AuditOSM.audit_key. rewrite audit_key_loop_tags.
  pose proof (audit_key_tags_spec self (audited_tags elems) []) as H.
  destruct (forallb _ (audited_tags elems)); [|exact H].
  destruct H as (vs & Hvs & Hnd & Hin). exists vs.
  split; [exact Hvs|]. split; [apply Hnd; constructor|].
  intros v. rewrite Hin. split; [intros [[]|H]; exact H | intros H; right; exact H].
Qed.

Lemma bucket_dict_set_add (d : AuditOSM.set_dict) (k x t : string) :
  AuditOSM.bucket (AuditOSM.dict_set_add d k x) t
  = if String.eqb t k then AuditOSM.set_add x (AuditOSM.bucket d t)
    else AuditOSM.bucket d t.
Proof.
  induction d as [|[k' s] d IH]; cbn [AuditOSM.dict_set_add AuditOSM.bucket].
  - destruct (String.eqb t k); reflexivity.
  - destruct (String.eqb_spec k k') as [->|Hne]; cbn [AuditOSM.bucket].
    + destruct (String.eqb t k'); reflexivity.
    + destruct (String.eqb_spec t k') as [->|Hne'].
      * destruct (String.eqb_spec k' k) as [->|_];
          [contradiction Hne; reflexivity | reflexivity].
      * exact IH.
Qed.

Lemma audit_street_type_bucket (self : AuditOSM.auditOSM)
    (d : AuditOSM.set_dict) (name t x : string) :
  In x (AuditOSM.bucket (AuditOSM.audit_street_type self d name) t)
  <-> In x (AuditOSM.bucket d t)
      \/ (x = name /\ street_type name = Some t
          /\ str_in t (AuditOSM.expected self) = false).
Proof.
  unfold AuditOSM.audit_street_type, street_type.
  destruct (search AuditOSM.street_type_re name) as [m|].
  - destruct (str_in (AuditOSM.group m name) (AuditOSM.expected self)) eqn:He;
      cbn [negb].
    + split; [intros H; left; exact H|].
      intros [H|(_ & [= <-] & Hx)]; [exact H|]. rewrite He in Hx. discriminate.
    + rewrite bucket_dict_set_add.
      destruct (String.eqb_spec t (AuditOSM.group m name)) as [->|Hne].
      * rewrite set_add_In. split.
        -- intros [->|H]; [right; repeat split; assumption | left; exact H].
        -- intros [H|(-> & _ & _)]; [right; exact H | left; reflexivity].
      * split; [intros H; left; exact H|].
        intros [H|(_ & [= Heq] & _)]; [exact H|].
        contradiction Hne. symmetry. exact Heq.
  - split; [intros H; left; exact H|].
    intros [H|(_ & Hs & _)]; [exact H | discriminate Hs].
Qed.

Lemma audit_street_tags_app (self : AuditOSM.auditOSM) (t1 t2 : list Element)
    (d : AuditOSM.set_dict) :
  AuditOSM.audit_street_tags self (t1 ++ t2) d
  = (d' <- AuditOSM.audit_street_tags self t1 d ;;
     AuditOSM.audit_street_tags self t2 d').
Proof.
  revert d. induction t1 as [|tg t1 IH]; intros d;
    cbn [app AuditOSM.audit_street_tags]; [reflexivity|].
  destruct (AuditOSM.is_key_match self tg) as [[|]|x]; cbn [bind];
    [|apply IH | reflexivity].
  destruct (getitem (attrib tg) "v") as [v|x]; cbn [bind];
    [apply IH | reflexivity].
Qed.

Lemma audit_street_loop_tags (self : AuditOSM.auditOSM) (elems : list Element)
    (d : AuditOSM.set_dict) :
  AuditOSM.audit_street_loop self elems d
  = AuditOSM.audit_street_tags self (audited_tags elems) d.
Proof.
  revert d. induction elems as [|e es IH]; intros d;
    cbn [AuditOSM.audit_street_loop]; [reflexivity|].
  rewrite audited_tags_cons.
  destruct (String.eqb (tag e) "node" || String.eqb (tag e) "way"); [|apply IH].
  rewrite audit_street_tags_app.
  destruct (AuditOSM.audit_street_tags self (iter e "tag") d); cbn [bind];
    [apply IH | reflexivity].
Qed.

Lemma audit_street_tags_spec (self : AuditOSM.auditOSM) (tags : list Element) :
  forall d,
    if forallb (auditable (AuditOSM.key self)) tags then
      exists d',
        AuditOSM.audit_street_tags self tags d = Ok d'
        /\ forall t name,
             In name (AuditOSM.bucket d' t) <->
             In name (AuditOSM.bucket d t)
             \/ (street_type name = Some t
                 /\ str_in t (AuditOSM.expected self) = false
                 /\ exists tg,
                      In tg tags /\ tagged (AuditOSM.key self) name tg)
    else AuditOSM.audit_street_tags self tags d = Raise KeyError.
Proof.
  induction tags as [|tg tags IH]; intros d; cbn [forallb].
  - exists d. split; [reflexivity|]. intros t name. split; [auto|].
    intros [H|(_ & _ & tg & [] & _)]. exact H.
  - cbn [AuditOSM.audit_street_tags].
    unfold auditable at 1, AuditOSM.is_key_match, getitem, has_attr, get.
    destruct (lookup (attrib tg) "k") as [k|] eqn:Hk; cbn [bind andb];
      [|reflexivity].
    destruct (String.eqb_spec k (AuditOSM.key self)) as [->|Hne].
    + destruct (lookup (attrib tg) "v") as [v0|] eqn:Hv; cbn [bind andb];
        [|reflexivity].
      specialize (IH (AuditOSM.audit_street_type self d v0)).
      destruct (forallb (auditable (AuditOSM.key self)) tags); [|exact IH].
      destruct IH as (d' & Hd' & Hin). exists d'. split; [exact Hd'|].
      intros t name. rewrite Hin, audit_street_type_bucket. split.
      * intros [[H|(-> & Hst & Hx)]|(Hst & Hx & t' & Ht' & Htag)].
        -- left; exact H.
        -- right. repeat split; try assumption. exists tg.
           split; [left; reflexivity | split; assumption].
        -- right. repeat split; try assumption. exists t'.
           split; [right; exact Ht' | exact Htag].
      * intros [H|(Hst & Hx & t' & [<-|Ht'] & Htag)].
        -- left; left; exact H.
        -- destruct Htag as [_ Htv]. rewrite Hv in Htv. injection Htv as ->.
           left; right. repeat split; assumption.
        -- right. repeat split; try assumption. exists t'. split; assumption.
    + specialize (IH d).
      destruct (forallb (auditable (AuditOSM.key self)) tags); [|exact IH].
      destruct IH as (d' & Hd' & Hin). exists d'. split; [exact Hd'|].
      intros t name. rewrite Hin. split.
      * intros [H|(Hst & Hx & t' & Ht' & Htag)]; [left; exact H|].
        right. repeat split; try assumption. exists t'.
        split; [right; exact Ht' | exact Htag].
      * intros [H|(Hst & Hx & t' & [<-|Ht'] & Htag)]; [left; exact H | |].
        -- destruct Htag as [Htk _]. rewrite Hk in Htk. injection Htk as ->.
           contradiction Hne. reflexivity.
        -- right. repeat split; try assumption. exists t'. split; assumption.
Qed.

(** X22. [audit_street] files the values of the sub-tags with the audited
    key by their street type.  When each sub-tag of the nodes and ways has a
    [k], and a [v] if its [k] is the audited key, a name is in the set of a
    street type exactly when that type is read off the name, is not in the
    expected list, and the name is the value of such a sub-tag: names are
    never filed under an expected type.  Otherwise [audit_street] raises
    [KeyError]. *)
Theorem audit_street_buckets (self : AuditOSM.auditOSM) (elems : list Element) :
  if forallb (auditable (AuditOSM.key self)) (audited_tags elems) then
    exists d,
      AuditOSM.audit_street self elems = Ok d
      /\ forall t name,
           In name (AuditOSM.bucket d t) <->
           street_type name = Some t
           /\ str_in t (AuditOSM.expected self) = false
           /\ exists tg,
                In tg (audited_tags elems) /\ tagged (AuditOSM.key self) name tg
  else AuditOSM.audit_street self elems = Raise KeyError.
Proof.
  unfold AuditOSM.audit_street. rewrite audit_street_loop_tags.
  pose proof (audit_street_tags_spec self (audited_tags elems) []) as H.
  destruct (forallb _ (audited_tags elems)); [|exact H].
  destruct H as (d & Hd & Hin). exists d. split; [exact Hd|].
  intros t name. rewrite Hin. cbn [AuditOSM.bucket].
  split; [intros [[]|H]; exact H | intros H; right; exact H].
Qed.

(* ===================================================================== *)
(** * Counting the tags *)
(* ===================================================================== *)

Lemma str_in_count_get (d : OsmProject.count_dict) (k : string) :
  str_in k (map fst d)
  = match OsmProject.count_get d k with Some _ => true | None => false end.
Proof.
  induction d as [|[k' n] d IH]; cbn; [reflexivity|].
  destruct (String.eqb k k'); [reflexivity | exact IH].
Qed.

Lemma count_get_new (d : OsmProject.count_dict) (k t : string) :
  OsmProject.count_get d k = None ->
  OsmProject.count_get (d ++ [(k, 1)]) t
  = if String.eqb t k then Some 1 else OsmProject.count_get d t.
Proof.
  induction d as [|[k' n] d IH]; cbn [app OsmProject.count_get].
  - intros _. destruct (String.eqb t k); reflexivity.
  - destruct (String.eqb_spec k k') as [->|Hne]; [discriminate|].
    intros Hk. destruct (String.eqb_spec t k') as [->|_].
    + destruct (String.eqb_spec k' k) as [->|_];
        [contradiction Hne; reflexivity | reflexivity].
    + apply IH, Hk.
Qed.

Lemma count_get_incr (d : OsmProject.count_dict) (k t : string) :
  OsmProject.count_get (OsmProject.count_incr d k) t
  = if String.eqb t k
    then match OsmProject.count_get d t with
         | Some n => Some (n + 1)
         | None => None
         end
    else OsmProject.count_get d t.
Proof.
  induction d as [|[k' n] d IH];
    cbn [OsmProject.count_incr OsmProject.count_get].
  - destruct (String.eqb t k); reflexivity.
  - destruct (String.eqb_spec k k') as [->|Hne]; cbn [OsmProject.count_get].
    + destruct (String.eqb t k'); reflexivity.
    + destruct (String.eqb_spec t k') as [->|_]; [|exact IH].
      destruct (String.eqb_spec k' k) as [->|_];
        [contradiction Hne; reflexivity | reflexivity].
Qed.

Lemma count_loop_get (elems : list Element) (t : string) :
  forall d,
    OsmProject.count_get (OsmProject.count_loop elems d) t
    = match OsmProject.count_get d t, count_tag t elems with
      | Some n, c => Some (n + c)
      | None, 0 => None
      | None, S c => Some (S c)
      end.
Proof.
  unfold count_tag.
  induction elems as [|e es IH]; intros d;
    cbn [OsmProject.count_loop filter List.length].
  - destruct (OsmProject.count_get d t); [f_equal; lia | reflexivity].
  - rewrite str_in_count_get.
    destruct (OsmProject.count_get d (tag e)) as [n|] eqn:He; cbn [negb].
    + rewrite IH, count_get_incr.
      destruct (String.eqb_spec (tag e) t) as [Heq|Hne].
      * subst t. rewrite String.eqb_refl, He. cbn [List.length]. f_equal. lia.
      * destruct (String.eqb_spec t (tag e)) as [->|_];
          [contradiction Hne; reflexivity | reflexivity].
    + rewrite IH, (count_get_new d (tag e) t He).
      destruct (String.eqb_spec (tag e) t) as [Heq|Hne].
      * subst t. rewrite String.eqb_refl, He. cbn [List.length]. reflexivity.
      * destruct (String.eqb_spec t (tag e)) as [->|_];
          [contradiction Hne; reflexivity | reflexivity].
Qed.

(** X23. [count_tags] gives every tag name its number of elements: a name
    that occurs has that number as its value, a name that does not occur is
    no key of the dictionary. *)
Theorem count_tags_counts (elems : list Element) (t : string) :
  OsmProject.count_get (OsmProject.count_tags elems) t
  = match count_tag t elems with
    | 0 => None
    | S c => Some (S c)
    end.
Proof. unfold OsmProject.count_tags. rewrite count_loop_get. reflexivity. Qed.

(* ===================================================================== *)
(** * The street type *)
(* ===================================================================== *)

Lemma all_chars_app (q : ascii -> bool) (a b : string) :
  all_chars q (a ++ b) = all_chars q a && all_chars q b.
Proof.
  induction a as [|x a IH]; cbn; [reflexivity|].
  rewrite IH, andb_assoc. reflexivity.
Qed.

Lemma str_app_empty (a b : string) :
  (a ++ b)%string = EmptyString -> a = EmptyString.
Proof. destruct a; [reflexivity | discriminate]. Qed.

Lemma class_only (q : ascii -> bool) (items : list citem) (c : ascii) :
  forallb (fun n => implb (class_mem items (chr n)) (q (chr n))) (seq 0 256)
    = true ->
  class_mem items c = true -> q c = true.
Proof.
  intros Hall Hc. rewrite forallb_forall in Hall.
  specialize (Hall (nat_of_ascii c)).
  unfold chr in Hall. rewrite ascii_nat_embedding, Hc in Hall.
  apply Hall. apply in_seq. pose proof (nat_ascii_bounded c). lia.
Qed.

Lemma one_passes (q p : ascii -> bool) :
  (forall c, p c = true -> q c = true) -> passes q true (one p).
Proof.
  intros Hp st k res H. unfold one in H.
  destruct (after st) as [|c rest] eqn:Ha; [discriminate|].
  destruct (p c) eqn:Hc; [|discriminate].
  exists (advance c rest st), (String c ""). split; [exact H|].
  split; [reflexivity|]. split.
  - cbn. rewrite (Hp c Hc). reflexivity.
  - intros _. discriminate.
Qed.

Lemma stay_passes (q : ascii -> bool) (st : mstate)
    (k : mstate -> option mstate) (res : mstate) :
  k st = Some res ->
  exists st' pre,
    k st' = Some res /\ after st = (pre ++ after st')%string
    /\ all_chars q pre = true /\ (false = true -> pre <> EmptyString).
Proof.
  intros H. exists st, "". split; [exact H|]. split; [reflexivity|].
  split; [reflexivity | discriminate].
Qed.

Lemma rep_loop_passes (q : ascii -> bool) (flag : bool)
    (body : mstate -> (mstate -> option mstate) -> option mstate)
    (k : mstate -> option mstate) :
  passes q flag body ->
  forall n lo st res,
    rep_loop body k n lo st = Some res ->
    exists st' pre,
      k st' = Some res /\ after st = (pre ++ after st')%string
      /\ all_chars q pre = true
      /\ (lo <> 0 -> flag = true -> pre <> EmptyString).
Proof.
  intros Hbody. induction n as [|n IH]; intros lo st res H; cbn [rep_loop] in H.
  - destruct lo; [|discriminate].
    exists st, "". split; [exact H|]. split; [reflexivity|].
    split; [reflexivity | intros Hlo; contradiction].
  - destruct (body st (fun st1 => rep_loop body k n (pred lo) st1))
      as [res0|] eqn:Hb.
    + injection H as ->.
      apply Hbody in Hb as (st1 & pre1 & Hrest & Ha1 & Hq1 & Hn1).
      apply IH in Hrest as (st' & pre2 & Hk & Ha2 & Hq2 & _).
      exists st', (pre1 ++ pre2)%string. split; [exact Hk|]. split.
      * rewrite Ha1, Ha2, str_app_assoc. reflexivity.
      * split; [rewrite all_chars_app, Hq1, Hq2; reflexivity|].
        intros _ Hf He. apply str_app_empty in He. exact (Hn1 Hf He).
    + destruct lo; [|discriminate].
      exists st, "". split; [exact H|]. split; [reflexivity|].
      split; [reflexivity | intros Hlo; contradiction].
Qed.

(** A successful match of a pattern that takes only characters of [q] has
    passed over such characters, and over one at least when the pattern needs
    one. *)
Lemma exec_passes (q : ascii -> bool) (r : regex) :
  takes_only q r = true -> passes q (takes_some r) (exec r).
Proof.
  induction r as [| c | | items | r1 IH1 r2 IH2 | r1 IH1 r2 IH2
                  | r1 IH1 lo hi | g r1 IH1 | | | | w r1 IH1 | r1 IH1];
    intros Hq st k res H; cbn [exec takes_only takes_some] in *.
  - apply stay_passes, H.
  - revert H. apply one_passes. intros a Ha.
    apply Ascii.eqb_eq in Ha. subst a. exact Hq.
  - discriminate.
  - revert H. apply one_passes. intros a. apply class_only, Hq.
  - apply andb_prop in Hq as [Hq1 Hq2].
    apply (IH1 Hq1) in H as (st1 & pre1 & H2 & Ha1 & Hc1 & Hn1).
    apply (IH2 Hq2) in H2 as (st' & pre2 & Hk & Ha2 & Hc2 & Hn2).
    exists st', (pre1 ++ pre2)%string. split; [exact Hk|]. split.
    + rewrite Ha1, Ha2, str_app_assoc. reflexivity.
    + split; [rewrite all_chars_app, Hc1, Hc2; reflexivity|].
      intros Hf He. apply orb_prop in Hf as [Hf|Hf].
      * apply str_app_empty in He. exact (Hn1 Hf He).
      * destruct pre1; [|discriminate He]. exact (Hn2 Hf He).
  - apply andb_prop in Hq as [Hq1 Hq2].
    destruct (exec r1 st k) as [res1|] eqn:H1.
    + injection H as ->.
      apply (IH1 Hq1) in H1 as (st' & pre & Hk & Ha & Hc & Hn).
      exists st', pre. repeat split; try assumption.
      intros Hf. apply andb_prop in Hf as [Hf _]. apply Hn, Hf.
    + apply (IH2 Hq2) in H as (st' & pre & Hk & Ha & Hc & Hn).
      exists st', pre. repeat split; try assumption.
      intros Hf. apply andb_prop in Hf as [_ Hf]. apply Hn, Hf.
  - apply (rep_loop_passes q _ _ _ (IH1 Hq)) in H
      as (st' & pre & Hk & Ha & Hc & Hn).
    exists st', pre. repeat split; try assumption.
    intros Hf. destruct lo; [discriminate|]. apply Hn; [discriminate | exact Hf].
  - apply (IH1 Hq) in H as (st1 & pre & Hk & Ha & Hc & Hn).
    exists (MS (before st1) (after st1) ((g, consumed st st1) :: caps st1)), pre.
    repeat split; assumption.
  - destruct (before st); [|discriminate]. apply stay_passes, H.
  - destruct (at_eol st); [|discriminate]. apply stay_passes, H.
  - destruct (at_word_boundary st); [|discriminate]. apply stay_passes, H.
  - apply stay_passes.
    destruct (step_back w (before st) (after st)) as [[bef aft]|]; [|exact H].
    destruct (exec r1 (MS bef aft (caps st)) Some); [discriminate | exact H].
  - apply stay_passes.
    destruct (exec r1 st Some); [discriminate | exact H].
Qed.

(** A successful match of a pattern that ends in [$] ends at the end of
    the text, or before its final newline. *)
Lemma exec_ends_eol (r : regex) :
  ends_eol r = true ->
  forall st k res,
    exec r st k = Some res ->
    exists st', k st' = Some res /\ at_eol st' = true.
Proof.
  induction r as [| c | | items | r1 IH1 r2 IH2 | r1 IH1 r2 IH2
                  | r1 IH1 lo hi | g r1 IH1 | | | | w r1 IH1 | r1 IH1];
    cbn [ends_eol]; try discriminate; intros He st k res H; cbn [exec] in H.
  - apply exec_moves_on in H as (st1 & _ & H & _).
    apply (IH2 He) in H. exact H.
  - destruct (at_eol st) eqn:Hs; [|discriminate].
    exists st. split; assumption.
Qed.

Lemma at_eol_after (st : mstate) :
  at_eol st = true ->
  after st = EmptyString \/ after st = String (chr 10) EmptyString.
Proof.
  unfold at_eol. destruct (after st) as [|c [|d s]]; try discriminate.
  - left; reflexivity.
  - intros H. apply Ascii.eqb_eq in H. subst c. right; reflexivity.
Qed.

Lemma str_length_app (a b : string) :
  String.length (a ++ b) = String.length a + String.length b.
Proof. induction a as [|x a IH]; cbn; [reflexivity | rewrite IH; reflexivity]. Qed.

Lemma substring_prefix (t tail : string) :
  substring 0 (String.length t) (t ++ tail) = t.
Proof.
  induction t as [|x t IH]; cbn.
  - destruct tail; reflexivity.
  - rewrite IH. reflexivity.
Qed.

Lemma substring_skip (s1 s2 : string) (m : nat) :
  substring (String.length s1) m (s1 ++ s2) = substring 0 m s2.
Proof. induction s1 as [|x s1 IH]; cbn; [reflexivity | exact IH]. Qed.

(** Where [search_from] finds its match. *)
Lemma search_from_found (r : regex) (s : string) :
  forall (pre : list ascii) (m : match_obj),
    search_from r pre s = Some m ->
    exists s1 s2 pre' st,
      s = (s1 ++ s2)%string
      /\ m_start m = List.length pre + String.length s1
      /\ exec r (MS pre' s2 []) Some = Some st
      /\ m_len m = String.length s2 - String.length (after st).
Proof.
  induction s as [|c s IH]; intros pre m; cbn [search_from].
  - unfold match_at. destruct (exec r (MS pre "" []) Some) as [st|] eqn:He;
      [|discriminate].
    intros [= <-]. exists "", "", pre, st. cbn. repeat split; [lia | exact He].
  - unfold match_at at 1.
    destruct (exec r (MS pre (String c s) []) Some) as [st|] eqn:He.
    + intros [= <-]. exists "", (String c s), pre, st. cbn.
      repeat split; [lia | exact He].
    + intros H. apply IH in H as (s1 & s2 & pre' & st & -> & Hst & Hex & Hlen).
      exists (String c s1), s2, pre', st. cbn in *.
      repeat split; [lia | exact Hex | exact Hlen].
Qed.

(** X24. The street type [audit_street_type] reads off a name is the last
    run of characters of the name: it is not empty, holds no whitespace, and
    nothing follows it in the name but, at most, one final newline. *)
Theorem street_type_trailing_token (name t : string) :
  street_type name = Some t ->
  exists front tail,
    name = (front ++ t ++ tail)%string
    /\ t <> EmptyString
    /\ all_chars not_space t = true
    /\ (tail = EmptyString \/ tail = String (chr 10) EmptyString).
Proof.
  unfold street_type, search.
  destruct (search_from AuditOSM.street_type_re [] name) as [m|] eqn:Hs;
    [|discriminate].
  intros [= <-].
  apply search_from_found in Hs as (s1 & s2 & pre' & st & -> & Hst & Hex & Hlen).
  pose proof Hex as Hex'.
  apply (exec_passes not_space) in Hex as (st' & p & [= <-] & Ha & Hq & Hn);
    [|vm_compute; reflexivity].
  apply (exec_ends_eol AuditOSM.street_type_re (eq_refl true)) in Hex'
    as (st'' & [= <-] & Heol).
  cbn [after] in Ha. subst s2.
  exists s1, (after st'').
  unfold AuditOSM.group. rewrite Hst, Hlen. cbn [List.length Nat.add].
  rewrite str_length_app, Nat.add_sub, substring_skip, substring_prefix.
  split; [reflexivity|]. split; [apply Hn; reflexivity|].
  split; [exact Hq | apply at_eol_after, Heol].
Qed.

Lemma street_type_trailing_token_witness :
  exists front tail,
    "Sibaytah St." = (front ++ "St." ++ tail)%string
    /\ "St." <> EmptyString
    /\ all_chars not_space "St." = true
    /\ (tail = EmptyString \/ tail = String (chr 10) EmptyString).
Proof.
  apply (street_type_trailing_token "Sibaytah St." "St.").
  vm_compute. reflexivity.
Defined.

(* ===================================================================== *)
(** * Street names: the outputs a second application keeps *)
(* ===================================================================== *)

(** Other ways in which a second application changes the value: the
    capitalized value holds a mapping key that the raw value did not, a
    rewritten street number is rewritten again, and a segment cut at hyphens
    is cut again at commas. *)
Lemma clean_street_name_second_pass_changes :
  clean_street_name (Init "st Way" mapping_street_name expected_street_name)
  = Ok "St Way"
  /\ clean_street_name (Init "St Way" mapping_street_name expected_street_name)
     = Ok "Street Way"
  /\ clean_street_name (Init "4 4S" mapping_street_name expected_street_name)
     = Ok "4 Street 4S"
  /\ clean_street_name
       (Init "4 Street 4S" mapping_street_name expected_street_name)
     = Ok "Street 4 Street 4S"
  /\ clean_street_name (Init "Road,a-b" mapping_street_name expected_street_name)
     = Ok "Road,a"
  /\ clean_street_name (Init "Road,a" mapping_street_name expected_street_name)
     = Ok "Road".
Proof. repeat split; vm_compute; reflexivity. Qed.


(** ** What [capwords] keeps *)

Section CapwordsKeeps.

Variable p : ascii -> bool.
Hypothesis p_upper : forall c, p (upper_char c) = p c.
Hypothesis p_lower : forall c, p (lower_char c) = p c.
Hypothesis p_space : forall c, is_space c = true -> p c = false.






End CapwordsKeeps.




(** ** A second application *)




